(** * RTI-Helper: the temporal sampling and trimming engine

    A shallow embedding of the core of [rti-helper] (video_processing.py,
    cli.py, file_management.py, utils.py, exceptions.py) together with the
    properties stated about it in the specification.

    Conventions of the embedding:
    - Python [int] is [Z]; counters that start at 1 and only grow are [nat].
    - Python [float] (timestamps, durations, offsets, intervals, frame
      rates) is read as an exact rational, the canonical rationals [Qc]:
      [+], [-], [*], [/] are the exact field operations and [int(x)] is
      truncation toward zero.  Rounding of IEEE binary64 is outside the model.
    - Python [str] is [string] (ASCII).
    - A raised exception is the [Raise] outcome of [result]; code that
      touches the file system, standard input or the log is a function in
      the state-and-exception monad [io] over [world]. *)

From Stdlib Require Import QArith Qcanon Ascii String Lqa.
From stdpp Require Import base numbers list sorting strings pretty gmap.

Local Open Scope Z_scope.

(** ** Python outcomes *)

Module Py.

(** The exception classes of exceptions.py, followed by the built-in
    exceptions that the embedded code can raise. *)
Inductive exn :=
  | InvalidTimeError
  | MissingEnvironmentVariableError
  | FFmpegVideoTrimError
  | FFmpegAudioTrimError
  | VideoProcessingError
  | ConfigError
  | FileOpenError
  | CriticalError
  | FileManagementError
  | UserAbortException
  | ValueError
  | OverflowError
  | ZeroDivisionError
  | AttributeError
  | OSError
  | EOFError.

Global Instance exn_eq_dec : EqDecision exn.
Proof. solve_decision. Defined.

Inductive result (A : Type) :=
  | Ok (a : A)
  | Raise (e : exn) (msg : string).
Global Arguments Ok {A} a.
Global Arguments Raise {A} e msg.

Definition raised {A} (r : result A) : option exn :=
  match r with Ok _ => None | Raise e _ => Some e end.

(** [int(x)] on a float: truncation toward zero. *)
Definition int_of (x : Qc) : Z := Z.quot (Qnum x) (Z.pos (Qden x)).

(** [max(a, b)] and [min(a, b)] return the first argument unless the second
    is strictly greater (resp. strictly smaller). *)
Definition max (a b : Qc) : Qc := if bool_decide (a < b)%Qc then b else a.
Definition min (a b : Qc) : Qc := if bool_decide (b < a)%Qc then b else a.

(** [range(n)]: empty when [n <= 0]. *)
Definition range (n : Z) : list Z := seqZ 0 n.

(** [list(set(xs))]: the distinct elements, in an order the language does
    not fix. *)
Definition list_of_set (xs : list Qc) : list Qc :=
  elements (list_to_set xs : gset Qc).

(** [sorted(xs)] on floats. *)
Definition sorted (xs : list Qc) : list Qc := merge_sort Qcle xs.

End Py.

Import Py.

(** ** Log records

    [logging.warning(...)], [logging.info(...)] and the like.  A record
    keeps the values that the formatted message carries. *)

Inductive level := DEBUG | INFO | WARNING | ERROR.

Record Path := mkPath { parent : string; name : string }.

Inductive log_msg :=
  | IntervalAdjusted (requested adjusted : Qc)
  | DeletedFile (p : Path)
  | DeleteFailed (p : Path)
  | DeletedAudio (p : Path)
  | DeleteAudioFailed (p : Path)
  | RenamedFile (src dst : Path)
  | RenameFailed (src dst : Path)
  | FrameCaptureSaved (p : Path) (ts : Qc)
  | FrameCapturesCreated (n : nat)
  | TrimmedAudioSaved (p : Path)
  | ErrorText (msg : string).

Definition log_record : Type := level * log_msg.

(** ** FrameScheduler (video_processing.py) *)

Module FrameScheduler.

Local Open Scope Qc_scope.

Definition one_half : Qc := Q2Qc (1 # 2).

(** [VideoProcessor.is_timestamp_valid]: [0 <= timestamp <= video_duration]. *)
Definition is_timestamp_valid (timestamp video_duration : Qc) : bool :=
  bool_decide (0 ≤ timestamp) && bool_decide (timestamp ≤ video_duration).

(** [VideoProcessor.validate_frame_capture_interval].  The division
    [1 / frame_rate] raises [ZeroDivisionError] for a zero frame rate. *)
Definition validate_frame_capture_interval
    (frame_rate frame_capture_interval : Qc) : result Qc * list log_record :=
  if bool_decide (frame_rate = 0) then
    (Raise ZeroDivisionError "float division by zero", [])
  else
    let min_interval := 1 / frame_rate in
    if bool_decide (frame_capture_interval < min_interval) then
      let adjusted_interval :=
        (Qc_of_Z (int_of (frame_capture_interval / min_interval) + 1))
        * min_interval in
      (Ok adjusted_interval,
       [(WARNING, IntervalAdjusted frame_capture_interval adjusted_interval)])
    else (Ok frame_capture_interval, []).

(** The start of the schedule: the branch on [num_frame_captures % 2 == 0]. *)
Definition start_timestamp (timestamp : Qc) (num_frame_captures : Z)
    (interval : Qc) : Qc :=
  let half_count := (num_frame_captures `div` 2)%Z in
  if bool_decide (num_frame_captures `mod` 2 = 0)%Z then
    timestamp - interval * (Qc_of_Z half_count - one_half)
  else
    timestamp - interval * Qc_of_Z half_count.

(** One turn of the [for i in range(num_frame_captures)] loop. *)
Definition capture_step (start video_duration interval : Qc)
    (timestamps : list Qc) (i : Z) : list Qc :=
  let current_timestamp := start + Qc_of_Z i * interval in
  if is_timestamp_valid current_timestamp video_duration
  then timestamps ++ [current_timestamp]
  else timestamps.

(** [VideoProcessor.prepare_frame_capture_timestamps]. *)
Definition prepare_frame_capture_timestamps
    (timestamp video_duration : Qc) (num_frame_captures : Z)
    (interval : Qc) : list Qc :=
  let start := start_timestamp timestamp num_frame_captures interval in
  let timestamps :=
    foldl (capture_step start video_duration interval) []
          (range num_frame_captures) in
  sorted (list_of_set timestamps).

(** The schedule in the words of the specification. *)

(** [start = incident - interval*(count/2)] for odd [count], and
    [start = incident - interval*(count/2 - 0.5)] for even [count]. *)
Definition spec_start (incident : Qc) (count : Z) (interval : Qc) : Qc :=
  if Z.odd count
  then incident - interval * Qc_of_Z (count / 2)
  else incident - interval * (Qc_of_Z (count / 2) - one_half).

(** [x] is one of the candidates [start + i*interval], [i] in [[0, count)],
    and lies within [[0, duration]]. *)
Definition kept_candidate (incident duration : Qc) (count : Z)
    (interval x : Qc) : Prop :=
  (∃ i : Z, (0 ≤ i < count)%Z ∧
            x = spec_start incident count interval + Qc_of_Z i * interval)
  ∧ 0 ≤ x ∧ x ≤ duration.

(** Integer multiples of a frame period. *)
Definition multiple_of (m x : Qc) : Prop := ∃ k : Z, x = Qc_of_Z k * m.

Definition positive_multiple_of (m x : Qc) : Prop :=
  ∃ k : Z, (1 ≤ k)%Z ∧ x = Qc_of_Z k * m.

(** [x] is the smallest multiple of [m] that is [>= r]. *)
Definition smallest_multiple_ge (m r x : Qc) : Prop :=
  multiple_of m x ∧ r ≤ x ∧ ∀ y, multiple_of m y → r ≤ y → x ≤ y.

Definition smallest_positive_multiple_ge (m r x : Qc) : Prop :=
  positive_multiple_of m x ∧ r ≤ x ∧
  ∀ y, positive_multiple_of m y → r ≤ y → x ≤ y.

End FrameScheduler.

(** ** TrimWindowCalculator (video_processing.py) *)

Module TrimWindow.

Local Open Scope Qc_scope.

(** [VideoProcessor.calculate_time_offsets]: the four clamped times, in the
    order [(video_start, video_end, audio_start, audio_end)].  The source has
    no [raise] on this path. *)
Definition calculate_time_offsets
    (timestamp video_duration
     start_offset_seconds end_offset_seconds
     start_audio_offset_seconds end_audio_offset_seconds : Qc)
    : Qc * Qc * Qc * Qc :=
  let video_start_time := Py.max 0 (timestamp - start_offset_seconds) in
  let video_end_time := Py.min (timestamp + end_offset_seconds) video_duration in
  let audio_start_time := Py.max 0 (timestamp - start_audio_offset_seconds) in
  let audio_end_time :=
    Py.min (timestamp + end_audio_offset_seconds) video_duration in
  (video_start_time, video_end_time, audio_start_time, audio_end_time).

(** [m] is the larger (resp. smaller) of [a] and [b]. *)
Definition is_max (a b m : Qc) : Prop := (m = a ∨ m = b) ∧ a ≤ m ∧ b ≤ m.
Definition is_min (a b m : Qc) : Prop := (m = a ∨ m = b) ∧ m ≤ a ∧ m ≤ b.

(** The TrimWindow invariant of the data model. *)
Definition trim_window_ok (duration start stop : Qc) : Prop :=
  0 ≤ start ∧ start ≤ stop ∧ stop ≤ duration.

End TrimWindow.

(** ** TimeCodec (cli.py [valid_time], video_processing.py
       [format_seconds_to_hhmmss]) *)

Module TimeCodec.

(** A [datetime.time], or the time fields of a [datetime]. *)
Record time := mkTime { hour : Z; minute : Z; second : Z }.

Global Instance time_eq_dec : EqDecision time.
Proof. solve_decision. Defined.

(** The directives used by the two formats, and a format string as the list
    of its directives and literal characters. *)
Inductive directive := dH | dM | dS.
Inductive format_item := Directive (d : directive) | Literal (c : ascii).

(** ['%H:%M:%S'] and ['%M:%S']. *)
Definition fmt_HMS : list format_item :=
  [Directive dH; Literal ":"; Directive dM; Literal ":"; Directive dS]%char.
Definition fmt_MS : list format_item :=
  [Directive dM; Literal ":"; Directive dS]%char.

(** *** Parsing: [datetime.strptime] *)

Definition char_class : Type := ascii → bool.

Definition between (lo hi : ascii) : char_class := λ c,
  (nat_of_ascii lo <=? nat_of_ascii c)%nat && (nat_of_ascii c <=? nat_of_ascii hi)%nat.
Definition is_digit : char_class := between "0" "9".
Definition exactly (a : ascii) : char_class := between a a.

(** The regular expression that [_strptime] compiles each directive to, as
    the ordered list of its alternatives:
    [%H] is [2[0-3]|[0-1]\d|\d], [%M] is [[0-5]\d|\d] and
    [%S] is [6[0-1]|[0-5]\d|\d]. *)
Definition directive_regex (d : directive) : list (list char_class) :=
  match d with
  | dH => [[exactly "2"; between "0" "3"]; [between "0" "1"; is_digit]; [is_digit]]
  | dM => [[between "0" "5"; is_digit]; [is_digit]]
  | dS => [[exactly "6"; between "0" "1"]; [between "0" "5"; is_digit]; [is_digit]]
  end%char.

(** Match one alternative at the head of [s]: the matched text and the rest. *)
Fixpoint match_alternative (alt : list char_class) (s : string)
    : option (string * string) :=
  match alt with
  | [] => Some (EmptyString, s)
  | cls :: alt' =>
      match s with
      | String c s' =>
          if cls c then
            match match_alternative alt' s' with
            | Some (m, r) => Some (String c m, r)
            | None => None
            end
          else None
      | EmptyString => None
      end
  end.

(** [int(found_dict[...])] on a text of decimal digits. *)
Definition digit_value (c : ascii) : Z := Z.of_nat (nat_of_ascii c) - 48.

Fixpoint int_of_digits_from (acc : Z) (s : string) : Z :=
  match s with
  | EmptyString => acc
  | String c s' => int_of_digits_from (10 * acc + digit_value c) s'
  end.
Definition int_of_digits (s : string) : Z := int_of_digits_from 0 s.

Definition set_field (d : directive) (v : Z) (t : time) : time :=
  match d with
  | dH => mkTime v (minute t) (second t)
  | dM => mkTime (hour t) v (second t)
  | dS => mkTime (hour t) (minute t) v
  end.

(** The first alternative, in order, for which [k] succeeds: the
    backtracking of the regular-expression engine. *)
Fixpoint first_success {A B} (k : A → option B) (alts : list A) : option B :=
  match alts with
  | [] => None
  | a :: alts' =>
      match k a with
      | Some b => Some b
      | None => first_success k alts'
      end
  end.

(** [format_regex.match(data_string)]: the fields found and the text left
    after the match, or [None] when the text does not match. *)
Fixpoint re_match (format : list format_item) (s : string) (found : time)
    : option (time * string) :=
  match format with
  | [] => Some (found, s)
  | Literal c :: format' =>
      match s with
      | String c' s' =>
          if bool_decide (c = c') then re_match format' s' found else None
      | EmptyString => None
      end
  | Directive d :: format' =>
      first_success
        (λ alt,
           match match_alternative alt s with
           | Some (m, r) => re_match format' r (set_field d (int_of_digits m) found)
           | None => None
           end)
        (directive_regex d)
  end.

(** The range checks of the [datetime] constructor on the time fields. *)
Definition check_time_fields (t : time) : bool :=
  bool_decide (0 ≤ hour t ≤ 23) && bool_decide (0 ≤ minute t ≤ 59)
  && bool_decide (0 ≤ second t ≤ 59).

(** [datetime.strptime(data_string, format)], restricted to its time fields
    (the date is 1900-01-01 throughout).  Fields absent from the format
    default to zero. *)
Definition strptime (data_string : string) (format : list format_item)
    : result time :=
  match re_match format data_string (mkTime 0 0 0) with
  | None => Raise ValueError "time data does not match format"
  | Some (found, rest) =>
      if bool_decide (rest = EmptyString) then
        if check_time_fields found then Ok found
        else Raise ValueError "second must be in 0..59"
      else Raise ValueError "unconverted data remains"
  end.

Definition seconds_of (t : time) : Z :=
  hour t * 3600 + minute t * 60 + second t.

(** The [for time_format in formats] loop of [valid_time]: the first format
    that parses returns; a [ValueError] moves on to the next format. *)
Fixpoint valid_time_loop (s : string) (formats : list (list format_item))
    : result Z :=
  match formats with
  | [] =>
      Raise InvalidTimeError
        (String "010" "Invalid time format: " +:+ s
           +:+ ". Expected formats: 'HH:MM:SS' or 'MM:SS'.")
  | time_format :: formats' =>
      match strptime s time_format with
      | Ok parsed_time => Ok (seconds_of parsed_time)
      | Raise ValueError _ => valid_time_loop s formats'
      | Raise e msg => Raise e msg
      end
  end.

(** [valid_time] of cli.py. *)
Definition valid_time (s : string) : result Z :=
  valid_time_loop s [fmt_HMS; fmt_MS].

(** *** Formatting: [format_seconds_to_hhmmss] *)

(** A [timedelta] of whole seconds, normalised as the constructor does:
    [0 <= seconds < 86400]. *)
Record timedelta := mkDelta { td_days : Z; td_seconds : Z }.

Definition timedelta_of_seconds (seconds : Z) : result timedelta :=
  let d := seconds `div` 86400 in
  let s := seconds `mod` 86400 in
  if bool_decide (Z.abs d ≤ 999999999) then Ok (mkDelta d s)
  else Raise OverflowError "days out of range".

(** [datetime.max.toordinal()]. *)
Definition MAXORDINAL : Z := 3652059.

(** [(datetime.min + delta).time()]: [datetime.min] is day 1 at 00:00:00;
    the sum is rejected unless its day number lies in [(0, MAXORDINAL]]. *)
Definition datetime_min_plus (delta : timedelta) : result time :=
  let days := 1 + td_days delta in
  let hour := td_seconds delta `div` 3600 in
  let rem := td_seconds delta `mod` 3600 in
  let minute := rem `div` 60 in
  let second := rem `mod` 60 in
  if bool_decide (0 < days ≤ MAXORDINAL) then Ok (mkTime hour minute second)
  else Raise OverflowError "date value out of range".

(** Two decimal digits, zero padded: the rendering of [%H], [%M] and [%S]. *)
Definition digit_char (d : Z) : ascii := ascii_of_nat (48 + Z.to_nat d).
Definition two_digits (n : Z) : string :=
  String (digit_char (n `div` 10)) (String (digit_char (n `mod` 10)) EmptyString).

Definition field (d : directive) (t : time) : Z :=
  match d with dH => hour t | dM => minute t | dS => second t end.

(** [t.strftime(format)]. *)
Fixpoint strftime (t : time) (format : list format_item) : string :=
  match format with
  | [] => EmptyString
  | Directive d :: format' => two_digits (field d t) +:+ strftime t format'
  | Literal c :: format' => String c (strftime t format')
  end.

(** [VideoProcessor.format_seconds_to_hhmmss] on an integer number of
    seconds (the documented argument type). *)
Definition format_seconds_to_hhmmss (seconds : Z) : result string :=
  match timedelta_of_seconds seconds with
  | Raise e msg => Raise e msg
  | Ok delta =>
      match datetime_min_plus delta with
      | Raise e msg => Raise e msg
      | Ok formatted_time =>
          if bool_decide (hour formatted_time > 0)
          then Ok (strftime formatted_time fmt_HMS)
          else Ok (strftime formatted_time fmt_MS)
      end
  end.

(** The canonical rendering of a time of day, in the words of the
    specification: ["HH:MM:SS"] when the hour component is nonzero, else
    ["MM:SS"]. *)
Definition canonical (t : time) : string :=
  if bool_decide (hour t ≠ 0)
  then two_digits (hour t) +:+ ":" +:+ two_digits (minute t) +:+ ":"
       +:+ two_digits (second t)
  else two_digits (minute t) +:+ ":" +:+ two_digits (second t).

(** A time string written with two digits per field. *)
Definition render_HMS (h m s : Z) : string :=
  two_digits h +:+ ":" +:+ two_digits m +:+ ":" +:+ two_digits s.
Definition render_MS (m s : Z) : string :=
  two_digits m +:+ ":" +:+ two_digits s.

(** The first instant that [format_seconds_to_hhmmss] cannot represent:
    [MAXORDINAL] days. *)
Definition FORMAT_LIMIT : Z := MAXORDINAL * 86400.

(** The outcome of parsing in the words of the specification: exactly two
    formats, tried in the order ["HH:MM:SS"], ["MM:SS"]; the first that
    parses wins. *)
Definition parsed_time (s : string) : option time :=
  match strptime s fmt_HMS with
  | Ok t => Some t
  | Raise _ _ =>
      match strptime s fmt_MS with
      | Ok t => Some t
      | Raise _ _ => None
      end
  end.

(** The time of day [seconds] after midnight, for [0 <= seconds < 86400]. *)
Definition time_of_day (seconds : Z) : time :=
  mkTime (seconds `div` 3600) ((seconds `mod` 3600) `div` 60)
         ((seconds `mod` 3600) `mod` 60).

(** The values a directive's two-digit alternatives accept and the
    [datetime] constructor keeps. *)
Definition field_range (d : directive) (v : Z) : Prop :=
  match d with dH => 0 ≤ v < 24 | dM => 0 ≤ v < 60 | dS => 0 ≤ v < 60 end.

End TimeCodec.

(** ** Paths, the file system and the [io] monad *)

Module IO.

Global Instance Path_eq_dec : EqDecision Path.
Proof. solve_decision. Defined.

Global Instance Path_countable : Countable Path :=
  inj_countable' (λ p, (parent p, name p)) (λ '(d, n), mkPath d n)
                 (λ p, match p with mkPath _ _ => eq_refl end).

(** [str(path)]. *)
Definition str (p : Path) : string := parent p +:+ "/" +:+ name p.

(** [name.rfind('.')], counting positions from [i]. *)
Fixpoint rfind_dot (s : string) (i : nat) : option nat :=
  match s with
  | EmptyString => None
  | String c s' =>
      match rfind_dot s' (S i) with
      | Some j => Some j
      | None => if bool_decide (c = "."%char) then Some i else None
      end
  end.

(** [PurePath.suffix]: the text from the last dot of the name, unless that
    dot is the first or the last character. *)
Definition suffix (p : Path) : string :=
  match rfind_dot (name p) 0 with
  | Some i =>
      if (0 <? i)%nat && (i <? String.length (name p) - 1)%nat
      then String.substring i (String.length (name p) - i) (name p)
      else EmptyString
  | None => EmptyString
  end.

Fixpoint has_char (c : ascii) (s : string) : bool :=
  match s with
  | EmptyString => false
  | String c' s' => bool_decide (c = c') || has_char c s'
  end.

(** [PurePath.with_name]: [ValueError] when the path has no name or the new
    name is empty, is ["."] or contains a separator. *)
Definition with_name (p : Path) (new_name : string) : result Path :=
  if bool_decide (name p = EmptyString) then
    Raise ValueError (str p +:+ " has an empty name")
  else if bool_decide (new_name = EmptyString) || has_char "/" new_name
          || bool_decide (new_name = ".") then
    Raise ValueError ("Invalid name " +:+ new_name)
  else Ok (mkPath (parent p) new_name).

(** The [VideoProcessor] object: its [temp_uuid] and the list
    [created_files] of the files it tracks. *)
Record VideoProcessor := mkVideoProcessor {
  temp_uuid : string;
  created_files : list Path
}.

(** What the code can observe and change: the files that exist, the files
    the operating system refuses to remove or rename, the lines waiting on
    standard input, the log, and the run's [VideoProcessor]. *)
Record world := mkWorld {
  files : gset Path;
  locked : gset Path;
  stdin : list string;
  logs : list log_record;
  processor : VideoProcessor
}.

Definition set_files (f : gset Path) (w : world) : world :=
  mkWorld f (locked w) (stdin w) (logs w) (processor w).
Definition set_stdin (l : list string) (w : world) : world :=
  mkWorld (files w) (locked w) l (logs w) (processor w).
Definition set_logs (l : list log_record) (w : world) : world :=
  mkWorld (files w) (locked w) (stdin w) l (processor w).
Definition set_processor (v : VideoProcessor) (w : world) : world :=
  mkWorld (files w) (locked w) (stdin w) (logs w) v.

Definition io (A : Type) : Type := world → result A * world.

Definition ret {A} (a : A) : io A := λ w, (Ok a, w).
Definition bind {A B} (m : io A) (k : A → io B) : io B := λ w,
  match m w with
  | (Ok a, w') => k a w'
  | (Raise e msg, w') => (Raise e msg, w')
  end.
Definition raise {A} (e : exn) (msg : string) : io A := λ w, (Raise e msg, w).
Definition of_result {A} (r : result A) : io A := λ w, (r, w).

(** [try: body except e as err: handler(str(err))]. *)
Definition try_except {A} (body : io A) (e : exn) (handler : string → io A)
    : io A := λ w,
  match body w with
  | (Raise e' msg, w') =>
      if bool_decide (e' = e) then handler msg w' else (Raise e' msg, w')
  | ok => ok
  end.

(** [io] is a monad in the sense of stdpp: [x ← m; k] and [m;; k]. *)
Global Instance io_ret : MRet io := @ret.
Global Instance io_bind : MBind io := λ A B k m, bind m k.

(** The primitives. *)

Definition logging (lvl : level) (msg : log_msg) : io unit := λ w,
  (Ok (), set_logs (logs w ++ [(lvl, msg)]) w).

(** [Path.exists()] / [Path.is_file()]. *)
Definition path_exists (p : Path) : io bool := λ w,
  (Ok (bool_decide (p ∈ files w)), w).

(** [Path.unlink()]. *)
Definition unlink (p : Path) : io unit := λ w,
  if bool_decide (p ∈ files w) then
    if bool_decide (p ∈ locked w)
    then (Raise OSError ("[Errno 13] Permission denied: " +:+ str p), w)
    else (Ok (), set_files (files w ∖ {[p]}) w)
  else (Raise OSError ("[Errno 2] No such file or directory: " +:+ str p), w).

(** [Path.rename(target)]: an existing target is replaced. *)
Definition rename (src dst : Path) : io unit := λ w,
  if bool_decide (src ∈ files w) then
    if bool_decide (src ∈ locked w)
    then (Raise OSError ("[Errno 13] Permission denied: " +:+ str src), w)
    else (Ok (), set_files ({[dst]} ∪ files w ∖ {[src]}) w)
  else (Raise OSError ("[Errno 2] No such file or directory: " +:+ str src), w).

(** [input(prompt)]: the next line of standard input, [EOFError] at its end. *)
Definition input (prompt : string) : io string := λ w,
  match stdin w with
  | [] => (Raise EOFError "EOF when reading a line", w)
  | line :: rest => (Ok line, set_stdin rest w)
  end.

(** [str.strip()] and [str.lower()]. *)
Definition is_space (c : ascii) : bool :=
  let n := nat_of_ascii c in
  ((9 <=? n) && (n <=? 13) || (28 <=? n) && (n <=? 32))%nat.

Fixpoint lstrip (s : string) : string :=
  match s with
  | String c s' => if is_space c then lstrip s' else s
  | EmptyString => EmptyString
  end.

Fixpoint rstrip (s : string) : string :=
  match s with
  | EmptyString => EmptyString
  | String c s' =>
      match rstrip s' with
      | EmptyString => if is_space c then EmptyString else String c EmptyString
      | r => String c r
      end
  end.

Definition strip (s : string) : string := rstrip (lstrip s).

Definition lower_char (c : ascii) : ascii :=
  let n := nat_of_ascii c in
  if ((65 <=? n) && (n <=? 90))%nat then ascii_of_nat (n + 32) else c.

Fixpoint lower (s : string) : string :=
  match s with
  | EmptyString => EmptyString
  | String c s' => String (lower_char c) (lower s')
  end.

(** An extension such as [".mp4"]: at least two characters, a dot only at
    the start (so that [rfind_dot] finds that dot), and no separator. *)
Definition is_extension (ext : string) : Prop :=
  (∀ j, rfind_dot ext j = Some j)
  ∧ (2 ≤ String.length ext)%nat
  ∧ String.substring 0 (String.length ext) ext = ext
  ∧ has_char "/" ext = false.

End IO.

(** ** ArtifactTracker (video_processing.py [created_files],
       file_management.py [rename_files_with_vrn], utils.py [cleanup]) *)

Module Tracker.

Import IO.

(** [self.created_files.append(path)]. *)
Definition track (p : Path) : io unit := λ w,
  (Ok (),
   set_processor
     (mkVideoProcessor (temp_uuid (processor w))
                       (created_files (processor w) ++ [p])) w).

(** The tracked list after running [m]. *)
Definition tracked_after {A} (m : io A) (w : world) : list Path :=
  created_files (processor (snd (m w))).

(** The [try: temp_filename.rename(new_filename) ...] block at the end of
    the loop body of [rename_files_with_vrn]. *)
Definition attempt_rename (temp_filename new_filename : Path) : io unit :=
  try_except
    (rename temp_filename new_filename;;
     logging DEBUG (RenamedFile temp_filename new_filename))
    OSError
    (λ e,
       logging ERROR (RenameFailed temp_filename new_filename);;
       raise FileManagementError
         ("An error occurred while renaming file " +:+ str temp_filename
            +:+ " to " +:+ str new_filename +:+ ": " +:+ e)).

(** The [try: temp_filename.unlink() ...] block of the audio branch. *)
Definition attempt_delete_audio (temp_filename : Path) : io unit :=
  try_except
    (unlink temp_filename;;
     logging DEBUG (DeletedAudio temp_filename))
    OSError
    (λ e,
       logging ERROR (DeleteAudioFailed temp_filename);;
       raise FileManagementError
         ("An error occurred while deleting audio file " +:+ str temp_filename
            +:+ ": " +:+ e)).

Definition audio_suffixes : list string := [".wav"; ".mp3"; ".aac"].

(** The [for temp_filename in created_files] loop of
    [rename_files_with_vrn], with its two loop-carried variables.  (The
    list [frame_captures] that the function sorts beforehand is never read.) *)
Fixpoint rename_loop (actual_vrn : string) (created_files : list Path)
    (frame_capture_index : nat) (new_filenames : list Path)
    : io (list Path) :=
  match created_files with
  | [] => mret new_filenames
  | temp_filename :: rest =>
      let sfx := suffix temp_filename in
      if bool_decide (sfx = ".mp4") then
        new_filename ← of_result (with_name temp_filename (actual_vrn +:+ sfx));
        attempt_rename temp_filename new_filename;;
        rename_loop actual_vrn rest frame_capture_index
                    (new_filenames ++ [new_filename])
      else if bool_decide (sfx = ".jpg") then
        new_filename ←
          of_result (with_name temp_filename
                       (actual_vrn +:+ "_frame_" +:+ pretty frame_capture_index
                          +:+ sfx));
        attempt_rename temp_filename new_filename;;
        rename_loop actual_vrn rest (frame_capture_index + 1)
                    (new_filenames ++ [new_filename])
      else if bool_decide (sfx ∈ audio_suffixes) then
        attempt_delete_audio temp_filename;;
        rename_loop actual_vrn rest frame_capture_index new_filenames
      else
        rename_loop actual_vrn rest frame_capture_index
                    (new_filenames ++ [temp_filename])
  end.

(** [rename_files_with_vrn(created_files, actual_vrn)]. *)
Definition rename_files_with_vrn (created_files : list Path)
    (actual_vrn : string) : io (list Path) :=
  rename_loop actual_vrn created_files 1 [].

(** The answers that count as a confirmation: [['', 'y', 'yes']]. *)
Definition affirmative (user_input : string) : bool :=
  bool_decide (user_input ∈ [EmptyString; "y"; "yes"]).

(** The [try: temp_filename.unlink() ...] block of [cleanup]: a failure is
    logged and not raised. *)
Definition attempt_delete (temp_filename : Path) : io unit :=
  try_except
    (unlink temp_filename;;
     logging INFO (DeletedFile temp_filename))
    OSError
    (λ e, logging ERROR (DeleteFailed temp_filename)).

(** [cleanup(directory, created_files, prompt_user)]. *)
Fixpoint cleanup (directory : string) (created_files : list Path)
    (prompt_user : bool) : io unit :=
  match created_files with
  | [] => mret ()
  | temp_filename :: rest =>
      present ← path_exists temp_filename;
      if negb present || bool_decide (parent temp_filename ≠ directory) then
        cleanup directory rest prompt_user
      else
        confirmed ←
          (if prompt_user then
             answer ← input ("Do you want to delete " +:+ str temp_filename
                               +:+ "? [Y/n] ");
             mret (affirmative (lower (strip answer)))
           else mret true);
        if confirmed : bool then
          attempt_delete temp_filename;;
          cleanup directory rest prompt_user
        else cleanup directory rest prompt_user
  end.

(** The renaming in the words of the specification. *)

Inductive kind := FrameCapture | TrimmedVideo | TrimmedAudio | Other.

Definition kind_of (p : Path) : kind :=
  if bool_decide (suffix p = ".mp4") then TrimmedVideo
  else if bool_decide (suffix p = ".jpg") then FrameCapture
  else if bool_decide (suffix p ∈ audio_suffixes) then TrimmedAudio
  else Other.

Definition is_frame (p : Path) : bool :=
  match kind_of p with FrameCapture => true | _ => false end.
Definition is_audio (p : Path) : bool :=
  match kind_of p with TrimmedAudio => true | _ => false end.

(** The new name of the artifact at position [k] of the tracked list: the
    video becomes [{identifier}.{ext}], the frame capture that is the
    [index]-th of the list becomes [{identifier}_frame_{index}.{ext}], audio
    has no new name. *)
Definition renamed_at (identifier : string) (tracked : list Path) (k : nat)
    (p : Path) : option Path :=
  match kind_of p with
  | TrimmedVideo => Some (mkPath (parent p) (identifier +:+ suffix p))
  | FrameCapture =>
      let index := S (length (filter is_frame (take k tracked))) in
      Some (mkPath (parent p)
                   (identifier +:+ "_frame_" +:+ pretty index +:+ suffix p))
  | TrimmedAudio => None
  | Other => Some p
  end.

Definition renamed_list (identifier : string) (tracked : list Path)
    : list Path :=
  omap id (imap (renamed_at identifier tracked) tracked).

(** The new names of the artifacts from position [length done] on, for a
    tracked list split as [done ++ rest]. *)
Definition renamed_from (identifier : string) (done rest : list Path)
    : list Path :=
  omap id (imap (λ k, renamed_at identifier (done ++ rest) (length done + k)) rest).

(** The artifact [p] at position [k] of the tracked list is a video or a
    frame capture whose new name is [q]. *)
Definition renames_to (identifier : string) (tracked : list Path) (k : nat)
    (p q : Path) : Prop :=
  tracked !! k = Some p ∧ kind_of p ≠ Other
  ∧ renamed_at identifier tracked k p = Some q.

(** The tracked list of the specification's example,
    [[video.mp4, cap_1.jpg, cap_2.jpg, audio.wav]], in a directory where
    exactly these files exist. *)
Definition example_tracked : list Path :=
  [mkPath "/videos" "video.mp4"; mkPath "/videos" "cap_1.jpg";
   mkPath "/videos" "cap_2.jpg"; mkPath "/videos" "audio.wav"].

Definition example_world : world :=
  mkWorld (list_to_set example_tracked) ∅ [] []
          (mkVideoProcessor "0f3a" example_tracked).

End Tracker.

(** ** MediaTranscoder (video_processing.py) *)

Module Transcoder.

Import IO Tracker.

(** One invocation of the external engine:
    [ffmpeg.input(path, ss=.., to=..).output(out, **options)]. *)
Record ffmpeg_command := mkCommand {
  cmd_input : Path;
  cmd_ss : Qc;
  cmd_to : option Qc;
  cmd_output : Path;
  cmd_options : list (string * string)
}.

(** How a run of the engine ends: it completes, or [ffmpeg.Error] is raised
    with the diagnostic stream [e.stderr] ([None] when the stream was not
    captured). *)
Inductive ffmpeg_outcome :=
  | Completed
  | Failed (stderr : option string).

Section with_engine.

(** The external engine. *)
Variable ffmpeg_run : ffmpeg_command → ffmpeg_outcome.

(** The engine wrote (or overwrote) its output file. *)
Definition output_written (p : Path) : io unit := λ w,
  (Ok (), set_files ({[p]} ∪ files w) w).

(** [e.stderr.decode()]. *)
Definition decode (stderr : option string) : io string :=
  match stderr with
  | Some text => mret text
  | None => raise AttributeError "'NoneType' object has no attribute 'decode'"
  end.

(** [VideoProcessor.run_ffmpeg_trim_audio]. *)
Definition run_ffmpeg_trim_audio (video_path : Path)
    (audio_start_time audio_end_time : Qc) (trimmed_audio_filename : Path)
    : io unit :=
  let ffmpeg_audio :=
    mkCommand video_path audio_start_time (Some audio_end_time)
              trimmed_audio_filename [("vn", ""); ("acodec", "pcm_s16le")] in
  match ffmpeg_run ffmpeg_audio with
  | Completed =>
      output_written trimmed_audio_filename;;
      logging DEBUG (TrimmedAudioSaved trimmed_audio_filename);;
      track trimmed_audio_filename
  | Failed stderr =>
      text ← decode stderr;
      let error_message := "FFmpeg audio trimming error: " +:+ strip text in
      logging ERROR (ErrorText error_message);;
      raise FileManagementError error_message
  end.

(** The [for i, ts in enumerate(timestamps, start=1)] loop of
    [create_frame_captures].  (The error message of the source also prints
    the timestamp; the rendering of a float is left out of the text.) *)
Fixpoint capture_loop (video_path : Path) (i : nat) (timestamps : list Qc)
    : io unit :=
  match timestamps with
  | [] => mret ()
  | ts :: rest =>
      uuid ← (λ w, (Ok (temp_uuid (processor w)), w));
      let frame_capture_filename :=
        mkPath (parent video_path) (uuid +:+ "_" +:+ pretty i +:+ ".jpg") in
      match ffmpeg_run (mkCommand video_path ts None frame_capture_filename
                                  [("vframes", "1")]) with
      | Completed =>
          output_written frame_capture_filename;;
          logging DEBUG (FrameCaptureSaved frame_capture_filename ts);;
          track frame_capture_filename;;
          capture_loop video_path (S i) rest
      | Failed stderr =>
          text ← decode stderr;
          let error_message :=
            "An error occurred while saving the frame capture at "
              +:+ str frame_capture_filename +:+ ": " +:+ strip text in
          logging ERROR (ErrorText error_message);;
          raise FileManagementError error_message
      end
  end.

(** [VideoProcessor.create_frame_captures]. *)
Definition create_frame_captures (timestamps : list Qc) (video_path : Path)
    : io unit :=
  is_file ← path_exists video_path;
  if negb is_file then
    raise VideoProcessingError ("Invalid video path: " +:+ str video_path)
  else
    capture_loop video_path 1 timestamps;;
    logging INFO (FrameCapturesCreated (length timestamps)).

End with_engine.

End Transcoder.

(** ** The candidates of a schedule (video_processing.py) *)

Module Candidates.

Import FrameScheduler.
Local Open Scope Qc_scope.

(** The timestamps that the loop of [prepare_frame_capture_timestamps]
    computes, in the order of the loop, before any is dropped. *)
Definition candidates (timestamp : Qc) (num_frame_captures : Z)
    (interval : Qc) : list Qc :=
  (λ i, start_timestamp timestamp num_frame_captures interval
        + Qc_of_Z i * interval) <$> Py.range num_frame_captures.

End Candidates.

(** ** File names of a run (video_processing.py) *)

Module Naming.

Import IO.

(** [PurePath.stem]: the name without its suffix. *)
Definition stem (p : Path) : string :=
  match rfind_dot (name p) 0 with
  | Some i =>
      if (0 <? i)%nat && (i <? String.length (name p) - 1)%nat
      then String.substring 0 i (name p)
      else name p
  | None => name p
  end.

(** [VideoProcessor.build_file_paths]: the names of the trimmed video and of
    the trimmed audio, in the directory of the source video. *)
Definition build_file_paths (video_path : Path) : io (Path * Path) := λ w,
  let output_dir := parent video_path in
  let trimmed_video_filename :=
    mkPath output_dir
           (stem video_path +:+ "_" +:+ temp_uuid (processor w) +:+ "_trim.mp4") in
  let trimmed_audio_filename :=
    mkPath output_dir
           (stem video_path +:+ "_" +:+ temp_uuid (processor w)
              +:+ "_trim_audio.wav") in
  (Ok (trimmed_video_filename, trimmed_audio_filename), w).

(** The file that [create_frame_captures] writes for the [i]-th timestamp. *)
Definition frame_capture_path (uuid : string) (video_path : Path) (i : nat)
    : Path :=
  mkPath (parent video_path) (uuid +:+ "_" +:+ pretty i +:+ ".jpg").

(** The frame captures of [n] timestamps, numbered from [i]. *)
Definition frame_capture_paths (uuid : string) (video_path : Path)
    (i n : nat) : list Path :=
  frame_capture_path uuid video_path <$> seq i n.

(** The name that [rename_files_with_vrn] gives to the [j]-th frame
    capture of the video's directory. *)
Definition frame_name (video_path : Path) (actual_vrn : string) (j : nat)
    : Path :=
  mkPath (parent video_path) (actual_vrn +:+ "_frame_" +:+ pretty j +:+ ".jpg").

(** The command that [create_frame_captures] hands to the engine for the
    timestamp [ts] and the frame number [i]:
    [ffmpeg.input(video_path, ss=ts).output(frame_capture_filename, vframes=1)]. *)
Definition capture_command (uuid : string) (video_path : Path) (i : nat)
    (ts : Qc) : Transcoder.ffmpeg_command :=
  Transcoder.mkCommand video_path ts None
                       (frame_capture_path uuid video_path i) [("vframes", "1")].

(** The records logged for the captures of [timestamps], numbered from [i]. *)
Definition saved_records (uuid : string) (video_path : Path) (i : nat)
    (timestamps : list Qc) : list log_record :=
  zip_with (λ p ts, (DEBUG, FrameCaptureSaved p ts))
           (frame_capture_paths uuid video_path i (length timestamps))
           timestamps.

(** The message of the error raised for a failed capture. *)
Definition capture_error (uuid : string) (video_path : Path) (i : nat)
    (text : string) : string :=
  "An error occurred while saving the frame capture at "
    +:+ str (frame_capture_path uuid video_path i) +:+ ": " +:+ strip text.

End Naming.

(** ** Moving files to the archive (file_management.py) *)

Module FileManagement.

Import IO.

(** [try: body except Exception as e: handler(e)]: every exception of
    [exn] is an [Exception]. *)
Definition try_except_any {A} (body : io A) (handler : exn → string → io A)
    : io A := λ w,
  match body w with
  | (Raise e msg, w') => handler e msg w'
  | ok => ok
  end.

Section with_mkdir.

(** The operating system's answer to
    [path.mkdir(parents=True, exist_ok=True)]: [None] when the directory
    exists afterwards, or the text of the [OSError].  Directories are not
    part of [world]. *)
Variable os_mkdir : string → world → option string.

Definition mkdir (path : string) : io unit := λ w,
  match os_mkdir path w with
  | None => (Ok (), w)
  | Some e => (Raise OSError e, w)
  end.

(** [check_and_create_subdirectory]. *)
Definition check_and_create_subdirectory (path : string) : io unit :=
  try_except (mkdir path) OSError
    (λ e,
       logging ERROR (ErrorText ("Failed to create subdirectory " +:+ path
                                   +:+ ": " +:+ e));;
       raise FileManagementError ("Failed to create subdirectory " +:+ path)).

(** [shutil.copy2(src, dst)] of a file onto a file path. *)
Definition copy2 (src dst : Path) : io unit := λ w,
  if bool_decide (src ∈ files w) then
    if bool_decide (src = dst)
    then (Raise OSError (str src +:+ " and " +:+ str dst +:+ " are the same file"),
          w)
    else (Ok (), set_files ({[dst]} ∪ files w) w)
  else (Raise OSError ("[Errno 2] No such file or directory: " +:+ str src), w).

(** [shutil.move(src, dst)] of a file onto a file path: [os.rename], and
    when that fails with [OSError], a copy followed by [os.unlink(src)]. *)
Definition shutil_move (src dst : Path) : io unit :=
  try_except (rename src dst) OSError (λ _, copy2 src dst;; unlink src).

(** One turn of the [for src_file in src_files] loop of [move_files].  With
    [stringify] the loop variable has become a [str], and the evaluation of
    [src_file.name] inside the [try] raises [AttributeError]. *)
Definition move_one (src_file : Path) (dst : string) (stringify : bool)
    : io unit :=
  try_except_any
    ((if stringify
      then raise AttributeError "'str' object has no attribute 'name'"
      else shutil_move src_file (mkPath dst (name src_file)));;
     logging DEBUG (ErrorText ("Moved " +:+ str src_file +:+ " to " +:+ dst)))
    (λ _ e,
       logging ERROR (ErrorText ("Failed to move " +:+ str src_file
                                   +:+ " to " +:+ dst +:+ ": " +:+ e));;
       raise FileManagementError
         ("Failed to move " +:+ str src_file +:+ " to " +:+ dst
            +:+ ": " +:+ e)).

Fixpoint move_loop (src_files : list Path) (dst : string) (stringify : bool)
    : io unit :=
  match src_files with
  | [] => mret ()
  | src_file :: rest =>
      move_one src_file dst stringify;;
      move_loop rest dst stringify
  end.

(** [move_files(src_files, dst, stringify)]. *)
Definition move_files (src_files : list Path) (dst : string)
    (stringify : bool) : io unit :=
  check_and_create_subdirectory dst;;
  move_loop src_files dst stringify.

End with_mkdir.

End FileManagement.

(** ** The manual submission step (main.py) *)

Module Submission.

Import IO Tracker.

(** [s.replace(c, "")] for a one-character [c]. *)
Fixpoint remove_char (c : ascii) (s : string) : string :=
  match s with
  | EmptyString => EmptyString
  | String c' s' =>
      if bool_decide (c = c') then remove_char c s'
      else String c' (remove_char c s')
  end.

(** The answer as the loop reads it: [.lower().strip().replace("'", "")]. *)
Definition normalised (line : string) : string :=
  remove_char "'" (strip (lower line)).

(** [user_input in ['abort', 'cancel']] and [user_input in ['y', 'yes']]. *)
Definition is_abort (user_input : string) : bool :=
  bool_decide (user_input ∈ ["abort"; "cancel"]).
Definition is_yes (user_input : string) : bool :=
  bool_decide (user_input ∈ ["y"; "yes"]).

Definition nl : string := String "010" EmptyString.

Definition submission_prompt (download_dir actual_vrn : string) : string :=
  nl +:+ "FILES ARE READY!" +:+ nl
  +:+ "==============================================================" +:+ nl
  +:+ "Please manually submit the files to the relevant police force." +:+ nl
  +:+ "==============================================================" +:+ nl
  +:+ nl +:+ "Use the VRN: " +:+ actual_vrn +:+ nl
  +:+ "Once you have submitted the police form," +:+ nl
  +:+ "download the confirmation pdf into your folder:" +:+ nl
  +:+ download_dir +:+ " " +:+ nl
  +:+ "==================================================" +:+ nl
  +:+ "Ready to continue? Type 'yes', or 'abort': ".

(** What the loop does at an abort: the warning, the interactive cleanup,
    the exception. *)
Definition abort_steps (video_folder : string) (created_files : list Path)
    : io unit :=
  logging WARNING
    (ErrorText "Submission process aborted by the user. Proceeding to cleanup.");;
  cleanup video_folder created_files true;;
  raise UserAbortException "User aborted the submission process.".

(** A line that neither confirms nor aborts. *)
Definition undecided (line : string) : Prop :=
  is_abort (normalised line) = false ∧ is_yes (normalised line) = false.

(** [handle_manual_submission]: the [while True] loop, one turn per unit of
    [fuel]; [None] when the fuel runs out.  (The pauses and the text printed
    for an unrecognised answer are not part of [world].) *)
Fixpoint handle_manual_submission (fuel : nat) (download_dir : string)
    (video_folder : string) (created_files : list Path) (actual_vrn : string)
    (w : world) : option (result unit * world) :=
  match fuel with
  | O => None
  | S fuel' =>
      match input (submission_prompt download_dir actual_vrn) w with
      | (Raise e msg, w1) => Some (Raise e msg, w1)
      | (Ok line, w1) =>
          let user_input := normalised line in
          if is_abort user_input then
            Some (abort_steps video_folder created_files w1)
          else if is_yes user_input then Some (Ok (), w1)
          else handle_manual_submission fuel' download_dir video_folder
                                        created_files actual_vrn w1
      end
  end.

End Submission.

(** ** The registration number (openai_utils.py) *)

Module Vrn.

Import IO Tracker FileManagement Submission.

(** What [call_AI_for_VRN_in_transcript] hands back: a text, [None], or
    something unusable (the empty dictionary of a retryable failure, a JSON
    value that is not a text, or an exception that is not handled inside);
    the last case ends in the [except Exception] of the caller with the
    text [err]. *)
Inductive ai_response :=
  | AiText (vrn : string)
  | AiNone
  | AiUnusable (err : string).

(** [char.isdigit()] and [char.isalpha()] on ASCII characters. *)
Definition is_digit_char (c : ascii) : bool :=
  let n := nat_of_ascii c in ((48 <=? n) && (n <=? 57))%nat.
Definition is_alpha_char (c : ascii) : bool :=
  let n := nat_of_ascii c in
  ((65 <=? n) && (n <=? 90) || (97 <=? n) && (n <=? 122))%nat.

(** [any(pred(char) for char in s)]. *)
Fixpoint any_char (pred : ascii → bool) (s : string) : bool :=
  match s with
  | EmptyString => false
  | String c s' => pred c || any_char pred s'
  end.

(** [str.upper()] on ASCII text. *)
Definition upper_char (c : ascii) : ascii :=
  let n := nat_of_ascii c in
  if ((97 <=? n) && (n <=? 122))%nat then ascii_of_nat (n - 32) else c.

Fixpoint upper (s : string) : string :=
  match s with
  | EmptyString => EmptyString
  | String c s' => String (upper_char c) (upper s')
  end.

(** [s.replace(" ", "")]. *)
Definition remove_spaces (s : string) : string := remove_char " " s.

(** ['=' * n]. *)
Fixpoint repeat_char (c : ascii) (n : nat) : string :=
  match n with O => EmptyString | S n' => String c (repeat_char c n') end.

(** The [while True] loop that asks for the registration number, one turn
    per unit of [fuel]. *)
Fixpoint request_vrn (fuel : nat) (w : world) : option (result string * world) :=
  match fuel with
  | O => None
  | S fuel' =>
      match input "Please enter VRN of the third-party vehicle: " w with
      | (Raise e msg, w1) => Some (Raise e msg, w1)
      | (Ok provided_vrn, w1) =>
          if any_char is_digit_char provided_vrn
             && any_char is_alpha_char provided_vrn
          then Some (Ok (upper (remove_spaces provided_vrn)), w1)
          else
            request_vrn fuel'
              (snd (logging ERROR (ErrorText "Invalid VRN format. Please try again.") w1))
      end
  end.

Section with_ai.

(** The call of the AI service for a transcript: what it hands back and the
    records it logs on the way. *)
Variable call_AI_for_VRN_in_transcript : string → ai_response * list log_record.

(** The [try] block of [extract_or_request_VRN]: [Some vrn] when the
    function returns from inside it, [None] when it falls through to the
    manual request. *)
Definition confirm_ai_vrn (transcript : string) : io (option string) :=
  try_except_any
    (VRN_response ←
       (λ w, let '(response, written) := call_AI_for_VRN_in_transcript transcript in
             (Ok response, set_logs (logs w ++ written) w));
     match VRN_response with
     | AiUnusable err => raise AttributeError err
     | AiNone =>
         logging ERROR
           (ErrorText "Failed to obtain VRN from OpenAI. Proceeding with manual input.");;
         mret None
     | AiText VRN_response =>
         let VRN := remove_spaces VRN_response in
         if bool_decide (VRN ≠ "FAIL") then
           let delimiter := repeat_char "=" (String.length VRN + 32) in
           user_input ← input (nl +:+ delimiter +:+ nl +:+ "Please confirm VRN is '"
                                 +:+ VRN +:+ "': [Y/n] " +:+ nl +:+ delimiter +:+ nl);
           if affirmative (lower (strip user_input)) then mret (Some VRN)
           else
             logging INFO (ErrorText "VRN rejected by the user. Requesting manual input.");;
             mret None
         else mret None
     end)
    (λ _ e,
       logging ERROR
         (ErrorText ("An error occurred while trying to extract the VRN: " +:+ e));;
       mret None).

(** [extract_or_request_VRN(transcript, ...)]; a transcript that is [None]
    or empty goes straight to the manual request. *)
Definition extract_or_request_VRN (fuel : nat) (transcript : option string)
    (w : world) : option (result string * world) :=
  let manual w1 :=
    request_vrn fuel
      (snd (logging INFO (ErrorText "Unable to extract VRN from audio transcript.") w1)) in
  match transcript with
  | Some (String c text) =>
      match confirm_ai_vrn (String c text) w with
      | (Ok (Some VRN), w1) => Some (Ok VRN, w1)
      | (Ok None, w1) => manual w1
      | (Raise e msg, w1) => Some (Raise e msg, w1)
      end
  | _ => manual w
  end.

End with_ai.

End Vrn.

(** ** The DVLA enquiry and its retries (dvla_utils.py) *)

Module Dvla.

Import IO Submission.

(** How [response.json()] ends: the decoded vehicle details, or
    [JSONDecodeError]. *)
Inductive response_body :=
  | Decoded (vehicle_details : string)
  | NotJSON (e : string).

(** How one request to the service ends: a response whose status is not an
    error, or one of the exceptions of [requests], named after the [except]
    clause of [handle_dvla_errors] that catches it ([HTTPError] is what
    [raise_for_status] raises). *)
Inductive request_outcome :=
  | Responded (body : response_body)
  | TimeoutRaised (e : string)
  | HTTPErrorRaised (e : string)
  | RequestExceptionRaised (e : string).

Section with_service.

(** The service: the outcome of the request made at each attempt, counted
    from 0. *)
Variable requests_post : nat → request_outcome.

(** [get_vehicle_details_from_dvla], before decoration: [None] without a
    key or with the APIs switched off, else the outcome of the request. *)
Definition get_vehicle_details_from_dvla (dvla_api_key : option string)
    (use_APIs : bool) (attempt : nat) : io (option request_outcome) :=
  if bool_decide (dvla_api_key = None ∨ dvla_api_key = Some EmptyString)
     || negb use_APIs
  then
    logging INFO
      (ErrorText "DVLA API key is missing or use_APIs is set to false. Skipping DVLA data retrieval.");;
    mret None
  else mret (Some (requests_post attempt)).

(** The end of the wrapper, after the loop. *)
Definition attempts_over : io (option string) :=
  logging ERROR (ErrorText "Max attempts reached. Proceeding without DVLA data.");;
  mret None.

Definition attempt_text (attempt : nat) (max_attempts : Z) (e : string)
    : string :=
  " on attempt " +:+ pretty (attempt + 1)%nat +:+ " of " +:+ pretty max_attempts
    +:+ ": " +:+ e.

(** The [for attempt in range(max_attempts)] loop of the wrapper of
    [handle_dvla_errors], with [remaining] turns to go.  (The pauses between
    attempts are not part of [world].) *)
Fixpoint retry_loop (registration_number : string)
    (dvla_api_key : option string) (use_APIs : bool) (max_attempts : Z)
    (remaining attempt : nat) : io (option string) :=
  match remaining with
  | O => attempts_over
  | S remaining' =>
      let continue :=
        retry_loop registration_number dvla_api_key use_APIs max_attempts
                   remaining' (S attempt) in
      response ← get_vehicle_details_from_dvla dvla_api_key use_APIs attempt;
      match response with
      | None => continue
      | Some (Responded (Decoded vehicle_details)) =>
          logging INFO
            (ErrorText ("Successfully retrieved vehicle details from DVLA for registration number "
                          +:+ registration_number +:+ "."));;
          mret (Some vehicle_details)
      | Some (Responded (NotJSON e)) =>
          logging WARNING
            (ErrorText ("JSONDecodeError" +:+ attempt_text attempt max_attempts e
                          +:+ ". Retrying..."));;
          continue
      | Some (TimeoutRaised e) =>
          logging WARNING
            (ErrorText ("TimeoutError" +:+ attempt_text attempt max_attempts e
                          +:+ ". Retrying..."));;
          continue
      | Some (HTTPErrorRaised e) =>
          logging ERROR
            (ErrorText ("HTTPError" +:+ attempt_text attempt max_attempts e +:+ "."));;
          attempts_over
      | Some (RequestExceptionRaised e) =>
          logging WARNING
            (ErrorText ("Connection/Request Error"
                          +:+ attempt_text attempt max_attempts e +:+ ". Retrying..."));;
          continue
      end
  end.

(** [get_vehicle_details_from_dvla] as decorated by [handle_dvla_errors]. *)
Definition vehicle_details_with_retries (registration_number : string)
    (dvla_api_key : option string) (use_APIs : bool) (max_attempts : Z)
    : io (option string) :=
  retry_loop registration_number dvla_api_key use_APIs max_attempts
             (Z.to_nat max_attempts) 0.

End with_service.

(** The record logged when the enquiry is skipped, and the one logged when
    the attempts are over. *)
Definition skipped_record : log_record :=
  (INFO, ErrorText "DVLA API key is missing or use_APIs is set to false. Skipping DVLA data retrieval.").
Definition attempts_over_record : log_record :=
  (ERROR, ErrorText "Max attempts reached. Proceeding without DVLA data.").

(** An outcome after which the wrapper tries again. *)
Definition retryable (o : request_outcome) : bool :=
  match o with
  | Responded (NotJSON _) | TimeoutRaised _ | RequestExceptionRaised _ => true
  | Responded (Decoded _) | HTTPErrorRaised _ => false
  end.

(** The key is present and the APIs are switched on. *)
Definition enquiry_enabled (dvla_api_key : option string) (use_APIs : bool)
    : Prop :=
  dvla_api_key ≠ None ∧ dvla_api_key ≠ Some EmptyString ∧ use_APIs = true.

End Dvla.

(** * Properties *)

(** ** Facts about the Python model *)

Section py_facts.

Local Open Scope Qc_scope.

Lemma Qc_this_inj (l1 l2 : list Qc) : this <$> l1 = this <$> l2 → l1 = l2.
Proof.
  revert l2. induction l1 as [|x l1 IH]; intros [|y l2] H; simplify_eq/=; [done|].
  f_equal; [by apply Qc_is_canon; rewrite H|]. by apply IH.
Qed.

Lemma elem_of_list_of_set (xs : list Qc) x : x ∈ list_of_set xs ↔ x ∈ xs.
Proof. unfold list_of_set. by rewrite elem_of_elements, elem_of_list_to_set. Qed.

Lemma NoDup_list_of_set (xs : list Qc) : NoDup (list_of_set xs).
Proof. unfold list_of_set. apply NoDup_elements. Qed.

Lemma elem_of_sorted (xs : list Qc) x : x ∈ sorted xs ↔ x ∈ xs.
Proof. unfold sorted. by rewrite merge_sort_Permutation. Qed.

Lemma NoDup_sorted (xs : list Qc) : NoDup xs → NoDup (sorted xs).
Proof. unfold sorted. by rewrite merge_sort_Permutation. Qed.

Lemma StronglySorted_le_lt (l : list Qc) :
  StronglySorted Qcle l → NoDup l → StronglySorted Qclt l.
Proof.
  induction 1 as [|x l Hl IH Hx]; intros Hnd; [constructor|].
  apply NoDup_cons in Hnd as [Hx' Hnd]. constructor; [auto|].
  rewrite Forall_forall in Hx |- *. intros y Hy.
  destruct (Qcle_lt_or_eq _ _ (Hx y Hy)) as [?| ->]; done.
Qed.

Lemma StronglySorted_lt_NoDup (l : list Qc) :
  StronglySorted Qclt l → NoDup l.
Proof.
  induction 1 as [|x l Hl IH Hx]; constructor; [|done].
  intros Hin. rewrite Forall_forall in Hx.
  by apply (irreflexivity Qclt x), Hx.
Qed.

(** A strictly ascending list is determined by its elements. *)
Lemma strictly_ascending_unique (l1 l2 : list Qc) :
  StronglySorted Qclt l1 → StronglySorted Qclt l2 →
  (∀ x, x ∈ l1 ↔ x ∈ l2) → l1 = l2.
Proof.
  intros H1 H2 Hel. apply (StronglySorted_unique_strong Qclt); [|done..|].
  - intros x1 x2 _ _ Hlt Hgt. destruct (irreflexivity Qclt x1). by trans x2.
  - apply NoDup_Permutation; auto using StronglySorted_lt_NoDup.
Qed.

(** [sorted(list(set(xs)))] is strictly ascending and has the elements of
    [xs], whatever order the set is listed in. *)
Lemma sorted_set_strictly_ascending (xs : list Qc) :
  StronglySorted Qclt (sorted (list_of_set xs)).
Proof.
  apply StronglySorted_le_lt.
  - apply (StronglySorted_merge_sort Qcle).
  - apply NoDup_sorted, NoDup_list_of_set.
Qed.

Lemma sorted_order_irrelevant (xs ys : list Qc) :
  NoDup xs → xs ≡ₚ ys → sorted xs = sorted ys.
Proof.
  intros Hnd Hp. assert (NoDup ys) by (by rewrite <-Hp).
  apply strictly_ascending_unique.
  - apply StronglySorted_le_lt; [apply (StronglySorted_merge_sort Qcle)|by apply NoDup_sorted].
  - apply StronglySorted_le_lt; [apply (StronglySorted_merge_sort Qcle)|by apply NoDup_sorted].
  - intros x. by rewrite !elem_of_sorted, Hp.
Qed.

End py_facts.

(** ** FrameScheduler *)

Module FrameSchedulerFacts.

Import FrameScheduler.
Local Open Scope Qc_scope.

(** The loop is a filter over the candidates. *)
Lemma capture_loop_filter start d iv (acc : list Qc) (l : list Z) :
  foldl (capture_step start d iv) acc l
  = acc ++ filter (λ t, is_timestamp_valid t d)
                  ((λ i, start + Qc_of_Z i * iv) <$> l).
Proof.
  revert acc. induction l as [|i l IH]; intros acc; simpl.
  { by rewrite app_nil_r. }
  rewrite IH. unfold capture_step. rewrite filter_cons.
  destruct (is_timestamp_valid _ _) eqn:E.
  - rewrite decide_True by done. by rewrite <-app_assoc.
  - rewrite decide_False; [done|]. by intros ?.
Qed.

Lemma is_timestamp_valid_spec t d : is_timestamp_valid t d ↔ 0 ≤ t ∧ t ≤ d.
Proof.
  unfold is_timestamp_valid. rewrite andb_True, !bool_decide_spec. done.
Qed.

(** The source's parity test agrees with the specification's odd/even split. *)
Lemma start_timestamp_spec ts n iv : start_timestamp ts n iv = spec_start ts n iv.
Proof.
  unfold start_timestamp, spec_start.
  rewrite Zodd_mod. case_bool_decide as Hm.
  - rewrite Hm. done.
  - assert (n `mod` 2 = 1)%Z as -> by (pose proof (Z.mod_pos_bound n 2); lia). done.
Qed.

Lemma elem_of_schedule ts d n iv x :
  x ∈ prepare_frame_capture_timestamps ts d n iv ↔ kept_candidate ts d n iv x.
Proof.
  unfold prepare_frame_capture_timestamps, kept_candidate.
  rewrite elem_of_sorted, elem_of_list_of_set, capture_loop_filter, app_nil_l.
  rewrite list_elem_of_filter, is_timestamp_valid_spec, list_elem_of_fmap.
  rewrite start_timestamp_spec. unfold range. split.
  - intros [[??] (i & -> & Hi)]. apply elem_of_seqZ in Hi.
    split; [exists i; split; [lia|done]|done].
  - intros [(i & Hi & ->) [??]]. split; [done|].
    exists i. split; [done|]. apply elem_of_seqZ. lia.
Qed.


End FrameSchedulerFacts.

(** ** Order reasoning on [Qc] *)

(** Goals about the order of [Qc] built from [+], [-], [*] and constants are
    moved to [Q], where [lra] decides them. *)
Ltac qc_order :=
  unfold Qcle, Qclt, Qcminus, Qcplus, Qcmult, Qcopp, Q2Qc in *;
  simpl this in *; rewrite ?Qred_correct in *; lra.

Section qc_facts.

Local Open Scope Qc_scope.

Lemma Qc_inv_pos (f : Qc) : 0 < f → 0 < 1 / f.
Proof.
  intros Hf. destruct (Qclt_le_dec 0 (1 / f)) as [|Hle]; [done|].
  assert (1 / f * f ≤ 0 * f) as H by (apply Qcmult_le_compat_r; [done|by apply Qclt_le_weak]).
  assert (1 / f * f = 1) as Heq by (field; intros ->; by apply (irreflexivity Qclt 0)).
  rewrite Heq, Qcmult_0_l in H. by destruct (Qclt_not_le 0 1).
Qed.

(** Truncation toward zero of a value in [[0, 1)]. *)
Lemma int_of_unit_interval (q : Qc) : 0 ≤ q → q < 1 → int_of q = 0%Z.
Proof.
  unfold Qcle, Qclt, Qle, Qlt, int_of. destruct q as [[n dn] Hc]; simpl.
  intros H0 H1. apply Z.quot_small. lia.
Qed.

(** Evaluating a result that carries a rational. *)
Lemma result_Qc_eval (r : result Qc) (x : Qc) :
  match r with Ok y => Qeq_bool y x | Raise _ _ => false end = true → r = Ok x.
Proof.
  destruct r as [y|]; [|done]. intros H. f_equal.
  by apply Qc_is_canon, Qeq_bool_iff.
Qed.

Lemma Qc_of_Z_mul_le (k : Z) (m : Qc) : 0 < m → (1 ≤ k)%Z → m ≤ Qc_of_Z k * m.
Proof.
  intros Hm Hk. rewrite <-(Qcmult_1_l m) at 1.
  apply Qcmult_le_compat_r; [|by apply Qclt_le_weak].
  rewrite <-Z2Qc_inj_1. by apply (proj1 (Z2Qc_inj_le 1 k)).
Qed.

End qc_facts.

Module IntervalFacts.

Import FrameScheduler.
Local Open Scope Qc_scope.

Lemma validate_adjusts (f r : Qc) :
  0 < f → 0 ≤ r → r < 1 / f →
  validate_frame_capture_interval f r
  = (Ok (1 / f), [(WARNING, IntervalAdjusted r (1 / f))]).
Proof.
  intros Hf Hr Hlt. unfold validate_frame_capture_interval.
  assert (f ≠ 0) as Hf0 by (intros ->; by apply (irreflexivity Qclt 0)).
  rewrite bool_decide_false, bool_decide_true by done.
  assert (r / (1 / f) = r * f) as Hq by (by field).
  assert (int_of (r / (1 / f)) = 0%Z) as ->.
  { rewrite Hq. apply int_of_unit_interval.
    - rewrite <-(Qcmult_0_l f). apply Qcmult_le_compat_r; [done|by apply Qclt_le_weak].
    - assert (1 / f * f = 1) as <- by (by field).
      by apply Qcmult_lt_compat_r. }
  assert (Qc_of_Z (0 + 1) * (1 / f) = 1 / f) as ->; [|done].
  change (Qc_of_Z (0 + 1)) with (Qc_of_Z 1). by rewrite Z2Qc_inj_1, Qcmult_1_l.
Qed.

Lemma validate_keeps (f r : Qc) :
  f ≠ 0 → 1 / f ≤ r →
  validate_frame_capture_interval f r = (Ok r, []).
Proof.
  intros Hf Hle. unfold validate_frame_capture_interval.
  rewrite bool_decide_false by done.
  rewrite bool_decide_false; [done|]. by apply Qcle_not_lt.
Qed.

Lemma frame_period_smallest_positive (m r : Qc) :
  0 < m → r < m → smallest_positive_multiple_ge m r m.
Proof.
  intros Hm Hr. split_and!.
  - exists 1%Z. split; [done|]. by rewrite Z2Qc_inj_1, Qcmult_1_l.
  - by apply Qclt_le_weak.
  - intros y (k & Hk & ->) _. by apply Qc_of_Z_mul_le.
Qed.

(** C2 (amended). For every frame rate [> 0] and requested interval [r] with
    [0 <= r < 1/frameRate], interval validation returns [1/frameRate], which
    is the smallest positive multiple of [1/frameRate] that is [>= r], and
    emits one warning carrying [r] and the adjusted value; for
    [r >= 1/frameRate] it returns [r] unchanged and emits nothing.  With
    frame rate 25 and requested interval 0.01 the result is 0.04. *)
Theorem interval_validation_rounds_up (f r : Qc) :
  0 < f →
  (0 ≤ r → r < 1 / f →
     validate_frame_capture_interval f r
     = (Ok (1 / f), [(WARNING, IntervalAdjusted r (1 / f))])
     ∧ smallest_positive_multiple_ge (1 / f) r (1 / f))
  ∧ (1 / f ≤ r → validate_frame_capture_interval f r = (Ok r, []))
  ∧ fst (validate_frame_capture_interval (Qc_of_Z 25) (Q2Qc (1 # 100)))
    = Ok (Q2Qc (4 # 100)).
Proof.
  intros Hf. split_and!.
  - intros Hr Hlt. split; [by apply validate_adjusts|].
    apply frame_period_smallest_positive; [by apply Qc_inv_pos|done].
  - apply validate_keeps. intros ->. by apply (irreflexivity Qclt 0).
  - by apply result_Qc_eval.
Qed.

Lemma interval_validation_rounds_up_witness :
  validate_frame_capture_interval (Qc_of_Z 25) (Q2Qc (1 # 100))
  = (Ok (1 / Qc_of_Z 25),
     [(WARNING, IntervalAdjusted (Q2Qc (1 # 100)) (1 / Qc_of_Z 25))]).
Proof.
  apply (interval_validation_rounds_up (Qc_of_Z 25) (Q2Qc (1 # 100)));
    reflexivity || (vm_compute; discriminate).
Defined.

(** C2 as stated fails for a requested interval that is not positive.  At
    frame rate 25 a requested interval of -0.08 is below the minimum 0.04;
    validation returns -0.04, which is neither the smallest multiple of 0.04
    that is [>= -0.08] (that is -0.08 itself) nor a positive multiple of
    0.04.  A requested interval of 0 yields 0.04, although 0 is a multiple
    of 0.04 that is [>= 0].  A frame rate of 0 yields no interval at all:
    the division raises [ZeroDivisionError]. *)
Lemma interval_validation_counterexample :
  let f := Qc_of_Z 25 in
  let r := Q2Qc (-2 # 25) in
  let x := Q2Qc (-1 # 25) in
  r < 1 / f
  ∧ fst (validate_frame_capture_interval f r) = Ok x
  ∧ ¬ smallest_multiple_ge (1 / f) r x
  ∧ ¬ positive_multiple_of (1 / f) x
  ∧ fst (validate_frame_capture_interval f 0) = Ok (1 / f)
  ∧ ¬ smallest_multiple_ge (1 / f) 0 (1 / f)
  ∧ raised (fst (validate_frame_capture_interval 0 1)) = Some ZeroDivisionError.
Proof.
  intros f r x. split_and!; [| | | | | |done].
  - done.
  - by apply result_Qc_eval.
  - intros (_ & _ & Hmin).
    assert (x ≤ r) as Hle; [|by vm_compute in Hle].
    apply Hmin; [|done]. exists (-2)%Z. by apply Qc_is_canon.
  - intros (k & Hk & Hx).
    assert (1 / f ≤ x) as Hle; [|by vm_compute in Hle].
    rewrite Hx. by apply Qc_of_Z_mul_le.
  - by apply result_Qc_eval.
  - intros (_ & _ & Hmin).
    assert (1 / f ≤ 0) as Hle; [|by vm_compute in Hle].
    apply Hmin; [|done]. exists 0%Z. by apply Qc_is_canon.
Qed.

End IntervalFacts.

(** ** TrimWindowCalculator *)

Module TrimWindowFacts.

Import TrimWindow.
Local Open Scope Qc_scope.

Lemma py_max_is_max (a b : Qc) : is_max a b (Py.max a b).
Proof.
  unfold is_max, Py.max. case_bool_decide as H.
  - split_and!; [by right|by apply Qclt_le_weak|done].
  - apply Qcnot_lt_le in H. split_and!; [by left|done|done].
Qed.

Lemma py_min_is_min (a b : Qc) : is_min a b (Py.min a b).
Proof.
  unfold is_min, Py.min. case_bool_decide as H.
  - split_and!; [by right|by apply Qclt_le_weak|done].
  - apply Qcnot_lt_le in H. split_and!; [by left|done|done].
Qed.

(** When a clamped window is well formed. *)
Lemma clamped_window_ok (d a b : Qc) :
  trim_window_ok d (Py.max 0 a) (Py.min b d) ↔ 0 ≤ d ∧ 0 ≤ b ∧ a ≤ d ∧ a ≤ b.
Proof.
  unfold trim_window_ok.
  destruct (py_max_is_max 0 a) as ([Hs|Hs] & Hs0 & Hsa);
    destruct (py_min_is_min b d) as ([He|He] & Heb & Hed);
    rewrite Hs, He in *; split; intros; destruct_and?; split_and?;
    try done; qc_order.
Qed.

(** C3. For every incident instant, duration and pre/post offsets, the
    returned video start is the larger of 0 and [incident - videoPre], the
    video end is the smaller of [incident + videoPost] and the duration, and
    the audio window is given by the same formulas with the audio offsets.
    With incident 5, videoPre 10, videoPost 10 and duration 100 the video
    window is [{0, 15}]. *)
Theorem windows_are_clamped (ts d vpre vpost apre apost : Qc) :
  let '(video_start, video_end, audio_start, audio_end) :=
    calculate_time_offsets ts d vpre vpost apre apost in
  is_max 0 (ts - vpre) video_start
  ∧ is_min (ts + vpost) d video_end
  ∧ is_max 0 (ts - apre) audio_start
  ∧ is_min (ts + apost) d audio_end
  ∧ ∀ a1 a2,
      let '(vs, ve, _, _) :=
        calculate_time_offsets (Qc_of_Z 5) (Qc_of_Z 100) (Qc_of_Z 10)
                               (Qc_of_Z 10) a1 a2 in
      vs = 0 ∧ ve = Qc_of_Z 15.
Proof.
  simpl. split_and!;
    [apply py_max_is_max|apply py_min_is_min|apply py_max_is_max
    |apply py_min_is_min|].
  intros _ _. split; by apply Qc_is_canon.
Qed.

(** C4 as stated fails: the computation has no error path, and offsets that
    put the start after the end are returned as they are.  With incident 5,
    duration 100, videoPre -10 and videoPost 2 the video window is
    [{15, 7}]. *)
Lemma windows_invariant_counterexample :
  let '(video_start, video_end, _, _) :=
    calculate_time_offsets (Qc_of_Z 5) (Qc_of_Z 100) (Qc_of_Z (-10))
                           (Qc_of_Z 2) 0 0 in
  video_start = Qc_of_Z 15 ∧ video_end = Qc_of_Z 7
  ∧ ¬ trim_window_ok (Qc_of_Z 100) video_start video_end.
Proof.
  simpl. split_and!; [by apply Qc_is_canon..|].
  intros (_ & H & _). by vm_compute in H.
Qed.

(** C4 (amended). Window computation returns for every input and raises
    nothing; each returned window satisfies [0 <= start <= end <= duration]
    exactly when [0 <= duration], [0 <= incident + post],
    [incident - pre <= duration] and [0 <= pre + post] hold for its offsets,
    and so whenever [0 <= incident <= duration] and both of its offsets are
    non-negative. *)
Theorem windows_invariant (ts d vpre vpost apre apost : Qc) :
  let '(video_start, video_end, audio_start, audio_end) :=
    calculate_time_offsets ts d vpre vpost apre apost in
  (trim_window_ok d video_start video_end
     ↔ 0 ≤ d ∧ 0 ≤ ts + vpost ∧ ts - vpre ≤ d ∧ 0 ≤ vpre + vpost)
  ∧ (trim_window_ok d audio_start audio_end
     ↔ 0 ≤ d ∧ 0 ≤ ts + apost ∧ ts - apre ≤ d ∧ 0 ≤ apre + apost)
  ∧ (0 ≤ ts ∧ ts ≤ d ∧ 0 ≤ vpre ∧ 0 ≤ vpost
     → trim_window_ok d video_start video_end)
  ∧ (0 ≤ ts ∧ ts ≤ d ∧ 0 ≤ apre ∧ 0 ≤ apost
     → trim_window_ok d audio_start audio_end).
Proof.
  simpl. rewrite !clamped_window_ok.
  split_and!; [split|split|..]; intros; destruct_and?; split_and?; qc_order.
Qed.

End TrimWindowFacts.

(** ** TimeCodec *)

Module TimeCodecFacts.

Import TimeCodec.

(** Split [lo <= v < hi] into one goal per value of [v]. *)
Ltac enum_range v :=
  match goal with
  | H : ?lo ≤ v < ?hi |- _ =>
      let E := fresh in
      assert (v ∈ seqZ lo (hi - lo)) as E by (apply elem_of_seqZ; lia);
      clear H; vm_compute in E;
      repeat (apply elem_of_cons in E as [->|E]); [..|by apply elem_of_nil in E]
  end.

(** A field written with two digits is read back by its directive, whatever
    follows, as long as the rest of the format matches what follows. *)
Lemma re_match_two_digits d format v rest found r :
  field_range d v →
  re_match format rest (set_field d v found) = Some r →
  re_match (Directive d :: format) (two_digits v +:+ rest) found = Some r.
Proof.
  intros Hv Hk. destruct d; simpl in Hv; enum_range v; simpl in Hk |- *;
    repeat match goal with
    | |- context [int_of_digits ?s] =>
        let n := eval vm_compute in (int_of_digits s) in
        change (int_of_digits s) with n
    end;
    change (EmptyString +:+ rest) with rest; by rewrite Hk.
Qed.

Lemma re_match_literal c format rest found r :
  re_match format rest found = Some r →
  re_match (Literal c :: format) (String c EmptyString +:+ rest) found = Some r.
Proof. intros H. simpl. by rewrite bool_decide_true. Qed.

Lemma check_time_fields_spec t :
  check_time_fields t ↔ 0 ≤ hour t < 24 ∧ 0 ≤ minute t < 60 ∧ 0 ≤ second t < 60.
Proof.
  unfold check_time_fields. rewrite !andb_True, !bool_decide_spec. lia.
Qed.

Lemma strptime_matched s format t :
  re_match format s (mkTime 0 0 0) = Some (t, EmptyString) →
  0 ≤ hour t < 24 → 0 ≤ minute t < 60 → 0 ≤ second t < 60 →
  strptime s format = Ok t.
Proof.
  intros Hm Hh Hmi Hs. unfold strptime. rewrite Hm.
  rewrite bool_decide_true by done.
  assert (check_time_fields t = true) as ->; [|done].
  by apply Is_true_true, check_time_fields_spec.
Qed.

Lemma two_digits_end v : two_digits v = two_digits v +:+ EmptyString.
Proof. reflexivity. Qed.

Lemma strptime_render_HMS h m s :
  0 ≤ h < 24 → 0 ≤ m < 60 → 0 ≤ s < 60 →
  strptime (render_HMS h m s) fmt_HMS = Ok (mkTime h m s).
Proof.
  intros Hh Hm Hs. apply strptime_matched; [|done..].
  unfold render_HMS, fmt_HMS. rewrite (two_digits_end s).
  apply (re_match_two_digits dH _ h); [done|]. apply re_match_literal.
  apply (re_match_two_digits dM _ m); [done|]. apply re_match_literal.
  apply (re_match_two_digits dS _ s); [done|]. reflexivity.
Qed.

Lemma strptime_render_MS m s :
  0 ≤ m < 60 → 0 ≤ s < 60 →
  strptime (render_MS m s) fmt_MS = Ok (mkTime 0 m s).
Proof.
  intros Hm Hs. apply strptime_matched; [|done..].
  unfold render_MS, fmt_MS. rewrite (two_digits_end s).
  apply (re_match_two_digits dM _ m); [done|]. apply re_match_literal.
  apply (re_match_two_digits dS _ s); [done|]. reflexivity.
Qed.

(** A text with one colon does not match ['%H:%M:%S']. *)
Lemma strptime_render_MS_not_HMS m s :
  0 ≤ m < 60 → 0 ≤ s < 60 →
  raised (strptime (render_MS m s) fmt_HMS) = Some ValueError.
Proof.
  intros Hm Hs.
  assert (forallb (λ m, forallb (λ s,
            bool_decide (raised (strptime (render_MS m s) fmt_HMS)
                         = Some ValueError)) (seqZ 0 60)) (seqZ 0 60) = true)
    as Hall by (vm_compute; reflexivity).
  rewrite forallb_forall in Hall.
  assert (In m (seqZ 0 60)) as Hin by (apply list_elem_of_In, elem_of_seqZ; lia).
  apply Hall in Hin. rewrite forallb_forall in Hin.
  assert (In s (seqZ 0 60)) as Hin' by (apply list_elem_of_In, elem_of_seqZ; lia).
  apply Hin in Hin'. by apply bool_decide_eq_true in Hin'.
Qed.

(** [strptime] raises nothing but [ValueError], and what it returns has
    passed the range checks. *)
Lemma strptime_outcome s format :
  match strptime s format return Prop with
  | Ok t => Is_true (check_time_fields t)
  | Raise e _ => e = ValueError
  end.
Proof.
  unfold strptime. destruct (re_match _ _ _) as [[t rest]|]; [|done].
  case_bool_decide; [|done]. by destruct (check_time_fields t) eqn:E; [rewrite E|].
Qed.

(** The loop of [valid_time], unrolled over its two formats. *)
Lemma valid_time_unfold s :
  valid_time s =
  match strptime s fmt_HMS with
  | Ok t => Ok (seconds_of t)
  | Raise _ _ =>
      match strptime s fmt_MS with
      | Ok t => Ok (seconds_of t)
      | Raise _ _ =>
          Raise InvalidTimeError
            (String "010" "Invalid time format: " +:+ s
               +:+ ". Expected formats: 'HH:MM:SS' or 'MM:SS'.")
      end
  end.
Proof.
  unfold valid_time, valid_time_loop.
  pose proof (strptime_outcome s fmt_HMS) as H1.
  pose proof (strptime_outcome s fmt_MS) as H2.
  destruct (strptime s fmt_HMS) as [|e1 ?]; [done|subst e1].
  by destruct (strptime s fmt_MS) as [|e2 ?]; [|subst e2].
Qed.

Lemma time_of_day_seconds_of t :
  check_time_fields t →
  0 ≤ seconds_of t < 86400
  ∧ seconds_of t `div` 3600 = hour t
  ∧ (seconds_of t `mod` 3600) `div` 60 = minute t
  ∧ (seconds_of t `mod` 3600) `mod` 60 = second t.
Proof.
  rewrite check_time_fields_spec. unfold seconds_of.
  destruct t as [h m s]; simpl. intros (Hh & Hm & Hs).
  assert ((h * 3600 + m * 60 + s) `div` 3600 = h) as Hd
    by (symmetry; apply (Z.div_unique _ _ _ (m * 60 + s)); lia).
  assert ((h * 3600 + m * 60 + s) `mod` 3600 = m * 60 + s) as Hr
    by (symmetry; apply (Z.mod_unique _ _ h); lia).
  rewrite Hd, Hr. split_and!; [lia..| | |]; [done| |].
  - symmetry. apply (Z.div_unique _ _ _ s); lia.
  - symmetry. apply (Z.mod_unique _ _ m); lia.
Qed.

(** Formatting the seconds of a time of day gives its canonical rendering. *)
Lemma format_seconds_of t :
  check_time_fields t →
  format_seconds_to_hhmmss (seconds_of t) = Ok (canonical t).
Proof.
  intros Ht. destruct (time_of_day_seconds_of t Ht) as (Hn & Hh & Hm & Hs).
  apply check_time_fields_spec in Ht as (Hh' & _).
  unfold format_seconds_to_hhmmss, timedelta_of_seconds, datetime_min_plus.
  rewrite (Z.div_small (seconds_of t) 86400), (Z.mod_small (seconds_of t) 86400)
    by done.
  rewrite !bool_decide_true by (unfold MAXORDINAL; simpl; lia). simpl td_seconds.
  rewrite Hh, Hm, Hs. unfold canonical. destruct t as [h m s]; simpl in *.
  repeat case_bool_decide; try lia; reflexivity.
Qed.

Lemma time_of_day_ok r :
  0 ≤ r < 86400 →
  check_time_fields (time_of_day r) ∧ seconds_of (time_of_day r) = r.
Proof.
  intros Hr. rewrite check_time_fields_spec. unfold seconds_of, time_of_day; simpl.
  pose proof (Z.div_mod r 3600 ltac:(lia)) as H1.
  pose proof (Z.mod_pos_bound r 3600 ltac:(lia)) as H2.
  pose proof (Z.div_mod (r `mod` 3600) 60 ltac:(lia)) as H3.
  pose proof (Z.mod_pos_bound (r `mod` 3600) 60 ltac:(lia)) as H4.
  assert (0 ≤ r `div` 3600 < 24)
    by (split; [apply Z.div_pos; lia|apply Z.div_lt_upper_bound; lia]).
  assert (0 ≤ (r `mod` 3600) `div` 60 < 60)
    by (split; [apply Z.div_pos; lia|apply Z.div_lt_upper_bound; lia]).
  lia.
Qed.

(** Within the range of [datetime], formatting renders the time of day. *)
Lemma format_seconds_eval n :
  0 ≤ n < FORMAT_LIMIT →
  format_seconds_to_hhmmss n = Ok (canonical (time_of_day (n `mod` 86400))).
Proof.
  unfold FORMAT_LIMIT, MAXORDINAL. intros Hn.
  pose proof (Z.mod_pos_bound n 86400 ltac:(lia)) as Hr.
  destruct (time_of_day_ok _ Hr) as [Hc Hs].
  apply check_time_fields_spec in Hc as Hh.
  assert (0 ≤ n `div` 86400 < 3652059)
    by (split; [apply Z.div_pos; lia|apply Z.div_lt_upper_bound; lia]).
  unfold format_seconds_to_hhmmss, timedelta_of_seconds, datetime_min_plus.
  rewrite !bool_decide_true by (unfold MAXORDINAL; simpl; lia). simpl td_seconds.
  fold (time_of_day (n `mod` 86400)). unfold canonical.
  destruct Hh as [Hh _]. destruct (time_of_day _) as [h m s]; simpl in *.
  repeat case_bool_decide; try lia; reflexivity.
Qed.

Lemma format_seconds_overflow n :
  n < 0 ∨ FORMAT_LIMIT ≤ n →
  raised (format_seconds_to_hhmmss n) = Some OverflowError.
Proof.
  unfold FORMAT_LIMIT, MAXORDINAL. intros Hn.
  unfold format_seconds_to_hhmmss, timedelta_of_seconds, datetime_min_plus.
  case_bool_decide; [|done]. simpl td_days.
  rewrite bool_decide_false; [done|]. unfold MAXORDINAL.
  destruct Hn as [Hn|Hn].
  - assert (n `div` 86400 < 0) by (apply Z.div_lt_upper_bound; lia). lia.
  - assert (3652059 ≤ n `div` 86400) by (apply Z.div_le_lower_bound; lia). lia.
Qed.

Lemma parsed_time_outcome s :
  match parsed_time s with
  | Some t =>
      valid_time s = Ok (hour t * 3600 + minute t * 60 + second t)
      ∧ format_seconds_to_hhmmss (hour t * 3600 + minute t * 60 + second t)
        = Ok (canonical t)
  | None => raised (valid_time s) = Some InvalidTimeError
  end.
Proof.
  rewrite valid_time_unfold. unfold parsed_time.
  pose proof (strptime_outcome s fmt_HMS) as H1.
  pose proof (strptime_outcome s fmt_MS) as H2.
  destruct (strptime s fmt_HMS) as [t|]; [split; [done|by apply format_seconds_of]|].
  destruct (strptime s fmt_MS) as [t|]; [split; [done|by apply format_seconds_of]|].
  done.
Qed.


(** C10 as stated fails beyond the range of [datetime]: [FORMAT_LIMIT]
    seconds (3652059 days) is not formatted at all, [OverflowError] is
    raised, while its remainder modulo one day, 0, is rendered as ["00:00"]. *)
Lemma format_wraps_counterexample :
  0 ≤ FORMAT_LIMIT
  ∧ raised (format_seconds_to_hhmmss FORMAT_LIMIT) = Some OverflowError
  ∧ format_seconds_to_hhmmss (FORMAT_LIMIT `mod` 86400) = Ok "00:00"
  ∧ format_seconds_to_hhmmss FORMAT_LIMIT
    ≠ format_seconds_to_hhmmss (FORMAT_LIMIT `mod` 86400).
Proof. split_and!; done. Qed.

(** C10 (amended). For every seconds value [n] with
    [0 <= n < 315537897600] (3652059 days, the range in which
    [datetime.min + timedelta(seconds=n)] exists), formatting [n] returns,
    and returns what formatting [n mod 86400] returns: the canonical
    rendering of a time of day, whose hour is below 24.  So 90123 seconds
    renders as ["01:02:03"] and 86400 as ["00:00"]. *)
Theorem format_wraps_modulo_day n :
  0 ≤ n < FORMAT_LIMIT →
  format_seconds_to_hhmmss n = format_seconds_to_hhmmss (n `mod` 86400)
  ∧ format_seconds_to_hhmmss n = Ok (canonical (time_of_day (n `mod` 86400)))
  ∧ 0 ≤ hour (time_of_day (n `mod` 86400)) < 24
  ∧ format_seconds_to_hhmmss 90123 = Ok "01:02:03"
  ∧ format_seconds_to_hhmmss 86400 = Ok "00:00".
Proof.
  intros Hn.
  pose proof (Z.mod_pos_bound n 86400 ltac:(lia)) as Hr.
  split_and!; [| |..|reflexivity|reflexivity].
  - rewrite (format_seconds_eval n) by done.
    rewrite (format_seconds_eval (n `mod` 86400))
      by (unfold FORMAT_LIMIT, MAXORDINAL; lia).
    by rewrite Z.mod_mod.
  - by apply format_seconds_eval.
  - destruct (time_of_day_ok _ Hr) as [Hc _].
    apply check_time_fields_spec in Hc. lia.
  - destruct (time_of_day_ok _ Hr) as [Hc _].
    apply check_time_fields_spec in Hc. lia.
Qed.

Lemma format_wraps_modulo_day_witness :
  format_seconds_to_hhmmss 90123 = format_seconds_to_hhmmss (90123 `mod` 86400).
Proof.
  apply (format_wraps_modulo_day 90123). unfold FORMAT_LIMIT, MAXORDINAL. lia.
Defined.

End TimeCodecFacts.

(** ** ArtifactTracker: tracking *)

Module TrackingFacts.

Import IO Tracker Transcoder.

Lemma track_appends p w :
  fst (track p w) = Ok ()
  ∧ tracked_after (track p) w = created_files (processor w) ++ [p].
Proof. done. Qed.

(** C7 as stated fails: tracking appends without looking at the list.
    Tracking the frame capture [/v/0f3a_1.jpg] twice leaves it twice in the
    list, which differs from tracking it once; this is what happens when
    the frame captures of a run are created a second time, since the second
    pass writes to, and tracks, the same file names. *)
Lemma tracking_twice_counterexample :
  let p := mkPath "/v" "0f3a_1.jpg" in
  let video := mkPath "/v" "clip.mp4" in
  let w := mkWorld {[video]} ∅ [] [] (mkVideoProcessor "0f3a" []) in
  let capture := create_frame_captures (λ _, Completed) [Qc_of_Z 7] video in
  tracked_after (track p) w = [p]
  ∧ tracked_after (track p;; track p) w = [p; p]
  ∧ tracked_after (track p;; track p) w ≠ tracked_after (track p) w
  ∧ ¬ NoDup (tracked_after (track p;; track p) w)
  ∧ tracked_after capture w = [p]
  ∧ tracked_after (capture;; capture) w = [p; p].
Proof.
  intros p video w capture. split_and!; try done.
  intros Hnd. apply NoDup_cons in Hnd as [Hnot _]. apply Hnot. by left.
Qed.

(** C7 (amended). Tracking is an unconditional append: for every tracker
    state and every path [p], tracking [p] raises nothing and adds [p] at
    the end of the tracked list, so tracking [p] twice is not an error and
    leaves the list of tracking [p] once followed by a second entry [p]. *)
Theorem tracking_appends p w :
  fst (track p w) = Ok ()
  ∧ fst ((track p;; track p) w) = Ok ()
  ∧ tracked_after (track p) w = created_files (processor w) ++ [p]
  ∧ tracked_after (track p;; track p) w = tracked_after (track p) w ++ [p]
  ∧ length (tracked_after (track p;; track p) w)
    = S (length (tracked_after (track p) w)).
Proof.
  split_and!; try done.
  unfold tracked_after; simpl. rewrite !length_app. simpl. lia.
Qed.

End TrackingFacts.

(** ** MediaTranscoder: audio extraction *)

Module TranscoderFacts.

Import IO Tracker Transcoder.

(** C8 (the code departs from it). When the engine fails during audio
    extraction with the diagnostic text [diag], [run_ffmpeg_trim_audio]
    raises [FileManagementError], not [FFmpegAudioTrimError]; the message
    wraps the stripped diagnostic text, nothing is retried and nothing is
    tracked.  When the diagnostic stream was not captured the handler itself
    fails with [AttributeError].  In neither case is the raised exception
    [FFmpegAudioTrimError]. *)
Theorem trim_audio_failure_raises_FileManagementError
    (stderr : option string) (video_path out : Path) (a b : Qc) (w : world) :
  let outcome :=
    run_ffmpeg_trim_audio (λ _, Failed stderr) video_path a b out w in
  raised (fst outcome)
  = Some (match stderr with
          | Some _ => FileManagementError
          | None => AttributeError
          end)
  ∧ raised (fst outcome) ≠ Some FFmpegAudioTrimError
  ∧ (∀ diag, stderr = Some diag →
       fst outcome
       = Raise FileManagementError ("FFmpeg audio trimming error: " +:+ strip diag)
       ∧ logs (snd outcome)
         = logs w ++ [(ERROR, ErrorText ("FFmpeg audio trimming error: "
                                           +:+ strip diag))])
  ∧ files (snd outcome) = files w
  ∧ created_files (processor (snd outcome)) = created_files (processor w)
  ∧ raised (fst (run_ffmpeg_trim_audio
                   (λ _, Failed (Some "No such file or directory"))
                   (mkPath "/v" "clip.mp4") 0%Qc 1%Qc
                   (mkPath "/v" "clip_u_trim_audio.wav")
                   (mkWorld ∅ ∅ [] [] (mkVideoProcessor "u" []))))
    = Some FileManagementError.
Proof.
  intros outcome. subst outcome. unfold run_ffmpeg_trim_audio.
  destruct stderr as [diag|]; simpl.
  - split_and!; try done. intros d [= <-]. done.
  - split_and!; done.
Qed.

End TranscoderFacts.

(** ** ArtifactTracker: cleanup *)

Module CleanupFacts.

Import IO Tracker.

(** What one deletion attempt does: it never raises; it removes the file
    and logs the deletion, or leaves the files alone and logs the failure. *)
Lemma attempt_delete_outcome p w :
  ∃ w', attempt_delete p w = (Ok (), w')
        ∧ locked w' = locked w ∧ stdin w' = stdin w
        ∧ if bool_decide (p ∈ files w ∧ p ∉ locked w)
          then files w' = files w ∖ {[p]}
               ∧ logs w' = logs w ++ [(INFO, DeletedFile p)]
          else files w' = files w
               ∧ logs w' = logs w ++ [(ERROR, DeleteFailed p)].
Proof.
  unfold attempt_delete, try_except, unlink, logging, mbind, io_bind, bind.
  destruct (decide (p ∈ files w)) as [Hin|Hin];
    [destruct (decide (p ∈ locked w)) as [Hl|Hl]|].
  - rewrite (bool_decide_true (p ∈ files w)), (bool_decide_true (p ∈ locked w)) by done.
    rewrite (bool_decide_false (_ ∧ _)) by naive_solver. simpl. eauto 10.
  - rewrite (bool_decide_true (p ∈ files w)), (bool_decide_false (p ∈ locked w)) by done.
    rewrite (bool_decide_true (_ ∧ _)) by naive_solver. simpl. eauto 10.
  - rewrite (bool_decide_false (p ∈ files w)) by done.
    rewrite (bool_decide_false (_ ∧ _)) by naive_solver. simpl. eauto 10.
Qed.

(** The loop body of [cleanup], case by case. *)
Lemma cleanup_cons directory x rest prompt w :
  cleanup directory (x :: rest) prompt w =
  if bool_decide (x ∈ files w ∧ parent x = directory) then
    if prompt then
      match stdin w with
      | [] => (Raise EOFError "EOF when reading a line", w)
      | answer :: more =>
          if affirmative (lower (strip answer))
          then cleanup directory rest prompt
                       (snd (attempt_delete x (set_stdin more w)))
          else cleanup directory rest prompt (set_stdin more w)
      end
    else cleanup directory rest prompt (snd (attempt_delete x w))
  else cleanup directory rest prompt w.
Proof.
  simpl. unfold mbind, io_bind, bind, path_exists, input, mret, io_ret, ret.
  destruct (decide (x ∈ files w)) as [Hin|Hin];
    [destruct (decide (parent x = directory)) as [Hd|Hd]|].
  - rewrite (bool_decide_true (x ∈ files w)), (bool_decide_false (parent x ≠ directory))
      by naive_solver.
    rewrite (bool_decide_true (_ ∧ _)) by done. simpl. destruct prompt.
    + destruct (stdin w) as [|answer more]; [done|].
      destruct (affirmative _); [|done].
      by destruct (attempt_delete_outcome x (set_stdin more w)) as (w' & -> & _).
    + by destruct (attempt_delete_outcome x w) as (w' & -> & _).
  - rewrite (bool_decide_true (x ∈ files w)), (bool_decide_true (parent x ≠ directory))
      by done.
    rewrite (bool_decide_false (_ ∧ _)) by naive_solver. done.
  - rewrite (bool_decide_false (x ∈ files w)) by done.
    rewrite (bool_decide_false (_ ∧ _)) by naive_solver. done.
Qed.

(** What every run of [cleanup] preserves: it creates no file, removes only
    tracked files of the scope directory, and only appends to the log. *)
Lemma cleanup_frame directory tracked prompt w :
  let w' := snd (cleanup directory tracked prompt w) in
  locked w' = locked w
  ∧ files w' ⊆ files w
  ∧ (∀ p, p ∈ files w → p ∉ files w' → p ∈ tracked ∧ parent p = directory)
  ∧ (∃ written, logs w' = logs w ++ written).
Proof.
  revert w. induction tracked as [|x rest IH]; intros w; cbv zeta.
  { simpl. split_and!; [done|done| |by exists []; rewrite app_nil_r].
    intros p Hp Hn. done. }
  rewrite cleanup_cons.
  assert (∀ w1, locked w1 = locked w → files w1 ⊆ files w →
            (∀ p, p ∈ files w → p ∉ files w1 → p = x ∧ parent p = directory) →
            (∃ written, logs w1 = logs w ++ written) →
            let w' := snd (cleanup directory rest prompt w1) in
            locked w' = locked w ∧ files w' ⊆ files w
            ∧ (∀ p, p ∈ files w → p ∉ files w' →
                 p ∈ x :: rest ∧ parent p = directory)
            ∧ (∃ written, logs w' = logs w ++ written)) as Hstep.
  { intros w1 Hl Hf Hrm [wr1 Hlog].
    destruct (IH w1) as (IHl & IHf & IHrm & [wr2 IHlog]).
    cbv zeta. split_and!.
    - congruence.
    - by trans (files w1).
    - intros p Hp Hn. destruct (decide (p ∈ files w1)) as [Hin|Hin].
      + destruct (IHrm p Hin Hn). split; [by right|done].
      + destruct (Hrm p Hp Hin) as [-> ?]. split; [by left|done].
    - exists (wr1 ++ wr2). by rewrite IHlog, Hlog, app_assoc. }
  assert (∀ w0, locked w0 = locked w → files w0 = files w → logs w0 = logs w →
            x ∈ files w → parent x = directory →
            let w1 := snd (attempt_delete x w0) in
            locked w1 = locked w ∧ files w1 ⊆ files w
            ∧ (∀ p, p ∈ files w → p ∉ files w1 → p = x ∧ parent p = directory)
            ∧ (∃ written, logs w1 = logs w ++ written)) as Hdel.
  { intros w0 Hl Hf Hlg Hx Hd.
    destruct (attempt_delete_outcome x w0) as (w1 & Heq & Hl1 & _ & Hcase).
    rewrite Heq. simpl. rewrite Hf, Hlg in Hcase.
    case_bool_decide; destruct Hcase as [Hf1 Hlg1]; rewrite Hf1, Hlg1.
    - split_and!; [congruence|set_solver +| |by eexists].
      intros p Hp Hn. destruct (decide (p = x)) as [->|Hne]; [done|].
      destruct Hn. apply elem_of_difference. split; [done|].
      by rewrite elem_of_singleton.
    - split_and!; [congruence|done|done|by eexists]. }
  assert (∃ written, logs w = logs w ++ written) as Hnolog
    by (exists []; by rewrite app_nil_r).
  case_bool_decide as Hscope; [destruct Hscope as [Hx Hd]|].
  - destruct prompt.
    + destruct (stdin w) as [|answer more] eqn:Hin.
      { simpl. split_and!; [done|done| |done]. intros p Hp Hn. done. }
      destruct (affirmative _).
      * destruct (Hdel (set_stdin more w)) as (?&?&?&?); [done..|].
        by apply Hstep.
      * apply Hstep; [done|done| |done]. intros p Hp Hn. done.
    + destruct (Hdel w) as (?&?&?&?); [done..|]. by apply Hstep.
  - apply Hstep; [done|done| |done]. intros p Hp Hn. done.
Qed.

(** Without prompting, [cleanup] returns, and every tracked file that exists
    in the scope directory goes through a deletion attempt, which the log
    written by [cleanup] records. *)
Lemma cleanup_unconditional directory tracked w :
  fst (cleanup directory tracked false w) = Ok ()
  ∧ ∃ written,
      logs (snd (cleanup directory tracked false w)) = logs w ++ written
      ∧ ∀ p, p ∈ tracked → p ∈ files w → parent p = directory →
             ((INFO, DeletedFile p) ∈ written ∨ (ERROR, DeleteFailed p) ∈ written)
             ∧ (p ∉ locked w → p ∉ files (snd (cleanup directory tracked false w))).
Proof.
  revert w. induction tracked as [|x rest IH]; intros w.
  { split; [done|]. exists []. split; [by rewrite app_nil_r|].
    intros p Hp. by apply elem_of_nil in Hp. }
  rewrite cleanup_cons. case_bool_decide as Hscope.
  - destruct Hscope as [Hx Hd].
    destruct (attempt_delete_outcome x w) as (w1 & Heq & Hl1 & _ & Hcase).
    rewrite Heq. simpl snd. destruct (IH w1) as (IHr & wr & IHlog & IHp).
    split; [done|].
    pose proof (cleanup_frame directory rest false w1) as (Fl & Ff & _ & _).
    assert (∃ e, logs w1 = logs w ++ [e]
                 ∧ (e = (INFO, DeletedFile x) ∨ e = (ERROR, DeleteFailed x))
                 ∧ (x ∉ locked w → files w1 = files w ∖ {[x]})
                 ∧ (∀ p, p ∈ files w → p ≠ x → p ∈ files w1))
      as (e & Hlg1 & He & Hgone & Hkeep).
    { case_bool_decide as Hok; destruct Hcase as [Hf1 Hlg1].
      - exists (INFO, DeletedFile x). split_and!; [done|by left|done|].
        intros p Hp Hne. rewrite Hf1, elem_of_difference, elem_of_singleton. done.
      - exists (ERROR, DeleteFailed x). split_and!; [done|by right| |].
        + intros Hnl. destruct Hok. done.
        + intros p Hp _. by rewrite Hf1. }
    exists (e :: wr). split; [by rewrite IHlog, Hlg1, <-app_assoc|].
    intros p Hp Hin Hpd. destruct (decide (p = x)) as [->|Hne].
    + split.
      * destruct He as [<-|<-]; [left|right]; by left.
      * intros Hnl Hx'. apply Ff in Hx'. rewrite (Hgone Hnl) in Hx'.
        apply elem_of_difference in Hx' as [_ Hx']. apply Hx'.
        by apply elem_of_singleton.
    + apply elem_of_cons in Hp as [?|Hp]; [done|].
      destruct (IHp p Hp (Hkeep p Hin Hne) Hpd) as [Hatt Hgone'].
      split; [destruct Hatt; [left|right]; by right|].
      intros Hnl. apply Hgone'. by rewrite Hl1.
  - destruct (IH w) as (IHr & wr & IHlog & IHp). split; [done|].
    exists wr. split; [done|]. intros p Hp Hin Hpd.
    apply elem_of_cons in Hp as [->|Hp]; [naive_solver|]. by apply IHp.
Qed.

(** With prompting, a confirmation that is empty once stripped deletes the
    file it was asked about. *)
Lemma cleanup_empty_answer directory x rest answer more w :
  stdin w = answer :: more → lower (strip answer) = EmptyString →
  x ∈ files w → parent x = directory → x ∉ locked w →
  x ∉ files (snd (cleanup directory (x :: rest) true w)).
Proof.
  intros Hin Hans Hx Hd Hl. rewrite cleanup_cons, bool_decide_true by done.
  rewrite Hin, Hans. simpl.
  destruct (attempt_delete_outcome x (set_stdin more w))
    as (w1 & Heq & Hl1 & _ & Hcase).
  rewrite Heq. simpl snd. rewrite bool_decide_true in Hcase by done.
  destruct Hcase as [Hf1 _].
  pose proof (cleanup_frame directory rest true w1) as (_ & Ff & _).
  simpl in Hf1. intros Hx'. apply Ff in Hx'. rewrite Hf1 in Hx'.
  clear -Hx'. set_solver.
Qed.


End CleanupFacts.


(** ** ArtifactTracker: renaming *)

Module RenameFacts.

Import IO Tracker.

(** *** Names and suffixes *)

Lemma append_cons c a b : String c a +:+ b = String c (a +:+ b).
Proof. reflexivity. Qed.

Lemma length_append a b :
  String.length (a +:+ b) = (String.length a + String.length b)%nat.
Proof. induction a as [|c a IH]; [done|]. rewrite append_cons. simpl. by rewrite IH. Qed.

Lemma has_char_app c a b : has_char c (a +:+ b) = has_char c a || has_char c b.
Proof.
  induction a as [|c' a IH]; [done|]. rewrite append_cons. simpl.
  by rewrite IH, orb_assoc.
Qed.

Lemma pretty_N_go_no_char c x s :
  (∀ d, pretty_N_char d ≠ c) → has_char c s = false →
  has_char c (pretty_N_go x s) = false.
Proof.
  intros Hc. revert s. induction (N.lt_wf_0 x) as [x _ IH]; intros s Hs.
  destruct (decide (x = 0)%N) as [->|Hx]; [by rewrite pretty_N_go_0|].
  rewrite pretty_N_go_step by lia. apply IH; [apply N.div_lt; lia|].
  simpl. rewrite Hs, orb_false_r. apply bool_decide_eq_false. intros E.
  by apply (Hc (x `mod` 10)%N).
Qed.

(** The decimal rendering of an index has no path separator. *)
Lemma pretty_nat_no_sep (n : nat) : has_char "/" (pretty n) = false.
Proof.
  unfold pretty, pretty_nat, pretty, pretty_N. case_decide; [done|].
  apply pretty_N_go_no_char; [|done].
  intros d. unfold pretty_N_char. by repeat case_match.
Qed.

Lemma mp4_is_extension : is_extension ".mp4".
Proof. split_and!; [by intros j| simpl; lia | done | done]. Qed.

Lemma jpg_is_extension : is_extension ".jpg".
Proof. split_and!; [by intros j| simpl; lia | done | done]. Qed.

Lemma rfind_dot_app a ext i :
  (∀ j, rfind_dot ext j = Some j) →
  rfind_dot (a +:+ ext) i = Some (i + String.length a)%nat.
Proof.
  intros Hext. revert i. induction a as [|c a IH]; intros i.
  - change (EmptyString +:+ ext) with ext. rewrite Hext. simpl. f_equal. lia.
  - rewrite append_cons. simpl. rewrite IH. f_equal. lia.
Qed.

Lemma substring_app a b n :
  String.substring (String.length a) n (a +:+ b) = String.substring 0 n b.
Proof. induction a as [|c a IH]; [done|]. rewrite append_cons. simpl. apply IH. Qed.

(** The suffix of a name that ends in an extension. *)
Lemma suffix_app d a ext :
  is_extension ext →
  suffix (mkPath d (a +:+ ext))
  = if bool_decide (a = EmptyString) then EmptyString else ext.
Proof.
  intros (Hdot & Hlen & Hsub & _). unfold suffix. simpl name.
  rewrite rfind_dot_app by done. rewrite length_append. simpl Nat.add.
  destruct a as [|c a].
  - by rewrite bool_decide_true.
  - rewrite bool_decide_false by done.
    assert ((0 <? String.length (String c a))%nat
            && (String.length (String c a)
                <? String.length (String c a) + String.length ext - 1)%nat = true)
      as -> by (apply andb_true_iff; split; apply Nat.ltb_lt; simpl; lia).
    replace (String.length (String c a) + String.length ext
             - String.length (String c a))%nat with (String.length ext) by lia.
    by rewrite substring_app.
Qed.

(** A new name ending in [.mp4] or [.jpg] is not the name of an audio file. *)
Lemma renamed_not_audio d a ext :
  ext = ".mp4" ∨ ext = ".jpg" → is_audio (mkPath d (a +:+ ext)) = false.
Proof.
  intros [->| ->]; unfold is_audio, kind_of.
  - rewrite suffix_app by apply mp4_is_extension. by destruct a.
  - rewrite suffix_app by apply jpg_is_extension. by destruct a.
Qed.

Lemma with_name_ok p a ext :
  suffix p = ext → is_extension ext → has_char "/" a = false →
  with_name p (a +:+ ext) = Ok (mkPath (parent p) (a +:+ ext)).
Proof.
  intros Hs (_ & Hlen & _ & Hsep) Ha. unfold with_name.
  assert (String.length (a +:+ ext) ≥ 2)%nat as Hl by (rewrite length_append; lia).
  rewrite bool_decide_false.
  2:{ intros Hn. destruct p as [d n]; simpl in *. subst n.
      unfold suffix in Hs; simpl in Hs. subst ext. simpl in Hlen. lia. }
  rewrite has_char_app, Ha, Hsep.
  rewrite (bool_decide_false (_ = EmptyString)), (bool_decide_false (_ = "."));
    [done|intros E; rewrite E in Hl; simpl in Hl; lia..].
Qed.

(** *** The steps of the loop *)

Lemma bind_ok {A B} (m : io A) (k : A → io B) w a w1 :
  m w = (Ok a, w1) → (m ≫= k) w = k a w1.
Proof. intros H. unfold mbind, io_bind, bind. by rewrite H. Qed.

Lemma attempt_rename_ok p q w :
  p ∈ files w → p ∉ locked w →
  attempt_rename p q w
  = (Ok (), set_logs (logs w ++ [(DEBUG, RenamedFile p q)])
                     (set_files ({[q]} ∪ files w ∖ {[p]}) w)).
Proof.
  intros Hin Hl.
  unfold attempt_rename, try_except, rename, logging, mbind, io_bind, bind.
  by rewrite (bool_decide_true (p ∈ files w)), (bool_decide_false (p ∈ locked w)).
Qed.

Lemma attempt_delete_audio_ok p w :
  p ∈ files w → p ∉ locked w →
  attempt_delete_audio p w
  = (Ok (), set_logs (logs w ++ [(DEBUG, DeletedAudio p)])
                     (set_files (files w ∖ {[p]}) w)).
Proof.
  intros Hin Hl.
  unfold attempt_delete_audio, try_except, unlink, logging, mbind, io_bind, bind.
  by rewrite (bool_decide_true (p ∈ files w)), (bool_decide_false (p ∈ locked w)).
Qed.

(** The source's chain of tests on the suffix is the artifact kind. *)
Lemma kind_of_video p : suffix p = ".mp4" → kind_of p = TrimmedVideo.
Proof. intros H. unfold kind_of. by rewrite H. Qed.

Lemma kind_of_frame p : suffix p = ".jpg" → kind_of p = FrameCapture.
Proof. intros H. unfold kind_of. by rewrite H. Qed.

Lemma kind_of_audio p :
  suffix p ≠ ".mp4" → suffix p ≠ ".jpg" → suffix p ∈ audio_suffixes →
  kind_of p = TrimmedAudio.
Proof.
  intros H1 H2 H3. unfold kind_of.
  by rewrite (bool_decide_false (_ = ".mp4")), (bool_decide_false (_ = ".jpg")),
    (bool_decide_true (_ ∈ _)).
Qed.

Lemma kind_of_other p :
  suffix p ≠ ".mp4" → suffix p ≠ ".jpg" → suffix p ∉ audio_suffixes →
  kind_of p = Other.
Proof.
  intros H1 H2 H3. unfold kind_of.
  by rewrite (bool_decide_false (_ = ".mp4")), (bool_decide_false (_ = ".jpg")),
    (bool_decide_false (_ ∈ _)).
Qed.

Lemma renamed_from_cons identifier done p rest :
  renamed_from identifier done (p :: rest)
  = match renamed_at identifier (done ++ p :: rest) (length done) p with
    | Some q => q :: renamed_from identifier (done ++ [p]) rest
    | None => renamed_from identifier (done ++ [p]) rest
    end.
Proof.
  unfold renamed_from. rewrite imap_cons. simpl omap.
  rewrite Nat.add_0_r.
  assert (imap ((λ k, renamed_at identifier (done ++ p :: rest) (length done + k)) ∘ S) rest
          = imap (λ k, renamed_at identifier ((done ++ [p]) ++ rest)
                                  (length (done ++ [p]) + k)) rest) as ->.
  { apply imap_ext. intros k x _. simpl. rewrite <-app_assoc. simpl.
    rewrite length_app. simpl. f_equal. lia. }
  by destruct (renamed_at _ _ _ _).
Qed.

Lemma frames_before done p rest :
  length (filter is_frame (take (length done) (done ++ p :: rest)))
  = length (filter is_frame done).
Proof. by rewrite take_app_length. Qed.

Lemma frames_after_frame done p :
  is_frame p = true →
  S (length (filter is_frame (done ++ [p])))
  = (S (length (filter is_frame done)) + 1)%nat.
Proof.
  intros Hp. rewrite filter_app, length_app, filter_cons, decide_True
    by (by rewrite Hp). simpl. lia.
Qed.

Lemma frames_after_other done p :
  is_frame p = false →
  S (length (filter is_frame (done ++ [p]))) = S (length (filter is_frame done)).
Proof.
  intros Hp. rewrite filter_app, length_app, filter_cons, decide_False
    by (rewrite Hp; intros []). simpl. lia.
Qed.

Lemma append_assoc a b c : (a +:+ b) +:+ c = a +:+ (b +:+ c).
Proof. induction a as [|x a IH]; [done|]. rewrite !append_cons. by rewrite IH. Qed.

Lemma rename_loop_cons vrn p rest idx acc :
  rename_loop vrn (p :: rest) idx acc =
  if bool_decide (suffix p = ".mp4") then
    new_filename ← of_result (with_name p (vrn +:+ suffix p));
    attempt_rename p new_filename;;
    rename_loop vrn rest idx (acc ++ [new_filename])
  else if bool_decide (suffix p = ".jpg") then
    new_filename ←
      of_result (with_name p (vrn +:+ "_frame_" +:+ pretty idx +:+ suffix p));
    attempt_rename p new_filename;;
    rename_loop vrn rest (idx + 1) (acc ++ [new_filename])
  else if bool_decide (suffix p ∈ audio_suffixes) then
    attempt_delete_audio p;;
    rename_loop vrn rest idx acc
  else rename_loop vrn rest idx (acc ++ [p]).
Proof. reflexivity. Qed.

(** An audio file present after a step was present before it and is not the
    file just processed. *)
Lemma audio_survives (x p q : Path) (fs : gset Path) :
  is_audio x = true → is_audio q = false →
  x ∈ {[q]} ∪ fs ∖ {[p]} → x ∈ fs ∧ x ≠ p.
Proof.
  intros Hx Hq Hin. apply elem_of_union in Hin as [Hin|Hin].
  - apply elem_of_singleton in Hin as ->. congruence.
  - apply elem_of_difference in Hin as [? Hne]. split; [done|].
    by rewrite elem_of_singleton in Hne.
Qed.

(** The loop invariant: when the files still to be processed are distinct,
    exist and can be changed, the loop returns the accumulated names
    followed by the new names of the rest, and leaves no processed audio
    file and no new audio file behind. *)
Lemma rename_loop_ok vrn rest :
  has_char "/" vrn = false →
  ∀ done acc w,
    NoDup rest → (∀ p, p ∈ rest → p ∈ files w ∧ p ∉ locked w) →
    ∃ w', rename_loop vrn rest (S (length (filter is_frame done))) acc w
          = (Ok (acc ++ renamed_from vrn done rest), w')
          ∧ locked w' = locked w
          ∧ (∀ x, is_audio x = true → x ∈ files w' → x ∈ files w ∧ x ∉ rest).
Proof.
  intros Hvrn. induction rest as [|p rest IH]; intros done acc w Hnd Hex.
  { exists w. unfold renamed_from. simpl. rewrite app_nil_r.
    split_and!; [done..|]. intros x _ Hx. split; [done|apply not_elem_of_nil]. }
  apply NoDup_cons in Hnd as [Hp Hnd].
  destruct (Hex p) as [Hpf Hpl]; [by left|].
  assert (∀ w1, locked w1 = locked w →
            (∀ p', p' ∈ files w → p' ≠ p → p' ∈ files w1) →
            ∀ p', p' ∈ rest → p' ∈ files w1 ∧ p' ∉ locked w1) as Hkeep.
  { intros w1 Hl Hf p' Hp'. destruct (Hex p') as [? ?]; [by right|].
    rewrite Hl. split; [|done]. apply Hf; [done|]. by intros ->. }
  rewrite rename_loop_cons, renamed_from_cons. unfold renamed_at.
  rewrite frames_before.
  destruct (decide (suffix p = ".mp4")) as [Hs|Hs1];
    [|destruct (decide (suffix p = ".jpg")) as [Hs|Hs2];
      [|destruct (decide (suffix p ∈ audio_suffixes)) as [Hs|Hs3]]].
  - (* the trimmed video *)
    rewrite (bool_decide_true (suffix p = ".mp4")) by done.
    rewrite (kind_of_video p Hs), Hs.
    set (q := mkPath (parent p) (vrn +:+ ".mp4")).
    erewrite bind_ok;
      [|unfold of_result; by rewrite (with_name_ok p vrn ".mp4")
          by (done || apply mp4_is_extension)].
    erewrite bind_ok; [|by apply attempt_rename_ok].
    cbv beta. set (w1 := set_logs _ _).
    destruct (IH (done ++ [p]) (acc ++ [q]) w1) as (w' & Heq & Hl & Haud);
      [done|apply Hkeep; [done|]|].
    { intros p' Hp' Hne. subst w1. cbn [files set_logs set_files]. apply elem_of_union. right.
      apply elem_of_difference. by rewrite elem_of_singleton. }
    rewrite frames_after_other in Heq
      by (unfold is_frame; by rewrite (kind_of_video p Hs)).
    exists w'. fold q. rewrite Heq, <-app_assoc. split_and!; [done|done|].
    intros x Hx Hin. destruct (Haud x Hx Hin) as [Hin1 Hnr].
    destruct (audio_survives x p q (files w) Hx) as [? ?];
      [by apply renamed_not_audio; left|done|].
    split; [done|]. by apply not_elem_of_cons.
  - (* a frame capture *)
    rewrite (bool_decide_false (suffix p = ".mp4")),
      (bool_decide_true (suffix p = ".jpg")) by done.
    rewrite (kind_of_frame p Hs), Hs.
    rewrite <-!append_assoc.
    set (q := mkPath (parent p) (((vrn +:+ "_frame_") +:+ pretty _) +:+ ".jpg")).
    erewrite bind_ok;
      [|unfold of_result;
        by rewrite (with_name_ok p ((vrn +:+ "_frame_") +:+ pretty _) ".jpg")
          by (done || apply jpg_is_extension
              || by rewrite !has_char_app, Hvrn, pretty_nat_no_sep)].
    erewrite bind_ok; [|by apply attempt_rename_ok].
    cbv beta. set (w1 := set_logs _ _).
    destruct (IH (done ++ [p]) (acc ++ [q]) w1) as (w' & Heq & Hl & Haud);
      [done|apply Hkeep; [done|]|].
    { intros p' Hp' Hne. subst w1. cbn [files set_logs set_files]. apply elem_of_union. right.
      apply elem_of_difference. by rewrite elem_of_singleton. }
    rewrite frames_after_frame in Heq
      by (unfold is_frame; by rewrite (kind_of_frame p Hs)).
    exists w'. fold q. rewrite Heq, <-app_assoc. split_and!; [done|done|].
    intros x Hx Hin. destruct (Haud x Hx Hin) as [Hin1 Hnr].
    destruct (audio_survives x p q (files w) Hx) as [? ?];
      [by apply renamed_not_audio; right|done|].
    split; [done|]. by apply not_elem_of_cons.
  - (* trimmed audio *)
    rewrite (bool_decide_false (suffix p = ".mp4")),
      (bool_decide_false (suffix p = ".jpg")),
      (bool_decide_true (suffix p ∈ audio_suffixes)) by done.
    rewrite (kind_of_audio p) by done.
    erewrite bind_ok; [|by apply attempt_delete_audio_ok].
    cbv beta. set (w1 := set_logs _ _).
    destruct (IH (done ++ [p]) acc w1) as (w' & Heq & Hl & Haud);
      [done|apply Hkeep; [done|]|].
    { intros p' Hp' Hne. subst w1. cbn [files set_logs set_files]. apply elem_of_difference.
      by rewrite elem_of_singleton. }
    rewrite frames_after_other in Heq
      by (unfold is_frame; by rewrite (kind_of_audio p)).
    exists w'. rewrite Heq. split_and!; [done|done|].
    intros x Hx Hin. destruct (Haud x Hx Hin) as [Hin1 Hnr].
    subst w1. cbn [files set_logs set_files] in Hin1.
    apply elem_of_difference in Hin1 as [? Hne].
    rewrite elem_of_singleton in Hne. split; [done|]. by apply not_elem_of_cons.
  - (* any other file *)
    rewrite (bool_decide_false (suffix p = ".mp4")),
      (bool_decide_false (suffix p = ".jpg")),
      (bool_decide_false (suffix p ∈ audio_suffixes)) by done.
    rewrite (kind_of_other p) by done.
    destruct (IH (done ++ [p]) (acc ++ [p]) w) as (w' & Heq & Hl & Haud);
      [done|apply (Hkeep w); [done|done]|].
    rewrite frames_after_other in Heq
      by (unfold is_frame; by rewrite (kind_of_other p)).
    exists w'. rewrite Heq, <-app_assoc. split_and!; [done|done|].
    intros x Hx Hin. destruct (Haud x Hx Hin) as [Hin1 Hnr].
    split; [done|]. apply not_elem_of_cons. split; [|done].
    intros ->. unfold is_audio in Hx. by rewrite (kind_of_other p) in Hx.
Qed.

Lemma renamed_list_from identifier tracked :
  renamed_list identifier tracked = renamed_from identifier [] tracked.
Proof. reflexivity. Qed.

(** No new name is the name of an audio file. *)
Lemma renamed_list_no_audio identifier tracked q :
  q ∈ renamed_list identifier tracked → is_audio q = false.
Proof.
  unfold renamed_list. rewrite list_elem_of_omap.
  intros (o & Ho & Hq). simpl in Hq. subst o.
  apply elem_of_lookup_imap in Ho as (k & p & Hr & _). symmetry in Hr.
  unfold renamed_at in Hr. destruct (kind_of p) eqn:Hk; simplify_eq.
  - unfold kind_of in Hk. repeat case_bool_decide; simplify_eq.
    match goal with H : suffix p = _ |- _ => rewrite H end.
    rewrite <-!append_assoc. apply renamed_not_audio. by right.
  - unfold kind_of in Hk. repeat case_bool_decide; simplify_eq.
    match goal with H : suffix p = _ |- _ => rewrite H end.
    apply renamed_not_audio. by left.
  - unfold is_audio. by rewrite Hk.
Qed.

(** *** Whenever the loop returns *)

Lemma bind_inv {A B} (m : io A) (k : A → io B) w b w' :
  (m ≫= k) w = (Ok b, w') →
  ∃ a w1, m w = (Ok a, w1) ∧ k a w1 = (Ok b, w').
Proof.
  unfold mbind, io_bind, bind. destruct (m w) as [[a|e msg] w1]; [eauto|done].
Qed.

Lemma with_name_inv p new_name q w w1 :
  of_result (with_name p new_name) w = (Ok q, w1) →
  q = mkPath (parent p) new_name ∧ w1 = w.
Proof.
  unfold of_result, with_name. repeat case_match; naive_solver.
Qed.

Lemma attempt_rename_inv p q w w1 :
  attempt_rename p q w = (Ok (), w1) → files w1 = {[q]} ∪ files w ∖ {[p]}.
Proof.
  unfold attempt_rename, try_except, rename, logging, raise, mbind, io_bind, bind.
  destruct (bool_decide (p ∈ files w)); [destruct (bool_decide (p ∈ locked w))|];
    simpl; by intros [= <-].
Qed.

Lemma attempt_delete_audio_inv p w w1 :
  attempt_delete_audio p w = (Ok (), w1) → files w1 = files w ∖ {[p]}.
Proof.
  unfold attempt_delete_audio, try_except, unlink, logging, raise, mbind, io_bind, bind.
  destruct (bool_decide (p ∈ files w)); [destruct (bool_decide (p ∈ locked w))|];
    simpl; by intros [= <-].
Qed.

(** Whatever the state of the file system, a loop that returns has computed
    the new names of the rest and left no audio file of the rest behind. *)
Lemma rename_loop_returns vrn rest :
  ∀ done acc w out w',
    rename_loop vrn rest (S (length (filter is_frame done))) acc w = (Ok out, w') →
    out = acc ++ renamed_from vrn done rest
    ∧ (∀ x, is_audio x = true → x ∈ files w' → x ∈ files w ∧ x ∉ rest).
Proof.
  induction rest as [|p rest IH]; intros done acc w out w' Hrun.
  { unfold renamed_from. simpl in *. injection Hrun as <- <-.
    rewrite app_nil_r. split; [done|]. intros x _ Hx.
    split; [done|apply not_elem_of_nil]. }
  rewrite rename_loop_cons in Hrun. rewrite renamed_from_cons.
  unfold renamed_at. rewrite frames_before.
  destruct (decide (suffix p = ".mp4")) as [Hs|Hs1];
    [|destruct (decide (suffix p = ".jpg")) as [Hs|Hs2];
      [|destruct (decide (suffix p ∈ audio_suffixes)) as [Hs|Hs3]]].
  - rewrite (bool_decide_true (suffix p = ".mp4")) in Hrun by done.
    rewrite (kind_of_video p Hs), Hs. rewrite Hs in Hrun.
    apply bind_inv in Hrun as (q & w0 & Hq & Hrun).
    apply with_name_inv in Hq as [-> ->].
    apply bind_inv in Hrun as ([] & w1 & Hmv & Hrun).
    apply attempt_rename_inv in Hmv.
    rewrite <-(frames_after_other done p) in Hrun
      by (unfold is_frame; by rewrite (kind_of_video p Hs)).
    apply IH in Hrun as [-> Haud]. rewrite <-app_assoc. split; [done|].
    intros x Hx Hin. destruct (Haud x Hx Hin) as [Hin1 Hnr]. rewrite Hmv in Hin1.
    apply audio_survives in Hin1 as [? ?];
      [|done|by apply renamed_not_audio; left].
    split; [done|]. by apply not_elem_of_cons.
  - rewrite (bool_decide_false (suffix p = ".mp4")),
      (bool_decide_true (suffix p = ".jpg")) in Hrun by done.
    rewrite (kind_of_frame p Hs), Hs. rewrite Hs in Hrun.
    apply bind_inv in Hrun as (q & w0 & Hq & Hrun).
    apply with_name_inv in Hq as [-> ->].
    apply bind_inv in Hrun as ([] & w1 & Hmv & Hrun).
    apply attempt_rename_inv in Hmv.
    rewrite <-(frames_after_frame done p) in Hrun
      by (unfold is_frame; by rewrite (kind_of_frame p Hs)).
    apply IH in Hrun as [-> Haud]. rewrite <-app_assoc. split; [done|].
    intros x Hx Hin. destruct (Haud x Hx Hin) as [Hin1 Hnr]. rewrite Hmv in Hin1.
    revert Hin1. rewrite <-!append_assoc. intros Hin1.
    apply audio_survives in Hin1 as [? ?];
      [|done|by apply renamed_not_audio; right].
    split; [done|]. by apply not_elem_of_cons.
  - rewrite (bool_decide_false (suffix p = ".mp4")),
      (bool_decide_false (suffix p = ".jpg")),
      (bool_decide_true (suffix p ∈ audio_suffixes)) in Hrun by done.
    rewrite (kind_of_audio p) by done.
    apply bind_inv in Hrun as ([] & w1 & Hrm & Hrun).
    apply attempt_delete_audio_inv in Hrm.
    rewrite <-(frames_after_other done p) in Hrun
      by (unfold is_frame; by rewrite (kind_of_audio p)).
    apply IH in Hrun as [-> Haud]. split; [done|].
    intros x Hx Hin. destruct (Haud x Hx Hin) as [Hin1 Hnr]. rewrite Hrm in Hin1.
    apply elem_of_difference in Hin1 as [? Hne].
    rewrite elem_of_singleton in Hne. split; [done|]. by apply not_elem_of_cons.
  - rewrite (bool_decide_false (suffix p = ".mp4")),
      (bool_decide_false (suffix p = ".jpg")),
      (bool_decide_false (suffix p ∈ audio_suffixes)) in Hrun by done.
    rewrite (kind_of_other p) by done.
    rewrite <-(frames_after_other done p) in Hrun
      by (unfold is_frame; by rewrite (kind_of_other p)).
    apply IH in Hrun as [-> Haud]. rewrite <-app_assoc. split; [done|].
    intros x Hx Hin. destruct (Haud x Hx Hin) as [Hin1 Hnr].
    split; [done|]. apply not_elem_of_cons. split; [|done].
    intros ->. unfold is_audio in Hx. by rewrite (kind_of_other p) in Hx.
Qed.

(** *** What is on disk afterwards *)

(** When the tracked paths are distinct and no new name is itself a tracked
    path, a loop that returns leaves every renamed artifact under its new
    name and none of the videos, frame captures and audio files under its
    old one. *)
Lemma rename_loop_disk vrn tracked :
  NoDup tracked →
  (∀ k p q, renames_to vrn tracked k p q → q ∉ tracked) →
  ∀ rest done acc w out w',
    tracked = done ++ rest →
    rename_loop vrn rest (S (length (filter is_frame done))) acc w = (Ok out, w') →
    (∀ p, p ∈ done → kind_of p ≠ Other → p ∉ files w) →
    (∀ k p q, (k < length done)%nat → renames_to vrn tracked k p q → q ∈ files w) →
    (∀ p, p ∈ tracked → kind_of p ≠ Other → p ∉ files w')
    ∧ (∀ k p q, renames_to vrn tracked k p q → q ∈ files w').
Proof.
  intros Hnd Hfresh.
  induction rest as [|p rest IH]; intros done acc w out w' Htr Hrun Hold Hnew.
  { simpl in Hrun. injection Hrun as <- <-. rewrite app_nil_r in Htr. subst done.
    split; [done|]. intros k p q Hr. apply (Hnew k p q); [|done].
    destruct Hr as [Hk _]. by apply lookup_lt_Some in Hk. }
  assert (tracked !! length done = Some p) as Hkp
    by (subst tracked; by apply list_lookup_middle).
  assert (p ∈ tracked) as Hpt by (by apply list_elem_of_lookup_2 in Hkp).
  assert (tracked = (done ++ [p]) ++ rest) as Htr'
    by (by rewrite <-app_assoc).
  assert (∀ q, renames_to vrn tracked (length done) p q → q ≠ p) as Hqp.
  { intros q Hr ->. by apply (Hfresh _ _ _ Hr). }
  (* the obligations of the induction hypothesis after one step that turns
     the files [fs] into [fs1] *)
  assert (∀ w1,
            (∀ x, x ∈ files w1 → x ∈ files w ∨ renames_to vrn tracked (length done) p x) →
            (∀ x, x ∈ files w → x ≠ p → x ∈ files w1) →
            (kind_of p ≠ Other → p ∉ files w1) →
            (∀ q, renames_to vrn tracked (length done) p q → q ∈ files w1) →
            (∀ p', p' ∈ done ++ [p] → kind_of p' ≠ Other → p' ∉ files w1)
            ∧ (∀ k p' q, (k < length (done ++ [p]))%nat →
                 renames_to vrn tracked k p' q → q ∈ files w1)) as Hstep.
  { intros w1 Hsub Hkeep Hgone Hadd. split.
    - intros p' Hp' Hk Hin. apply elem_of_app in Hp' as [Hp'|Hp'].
      + apply Hsub in Hin as [Hin|Hr]; [by apply (Hold p')|].
        apply (Hfresh _ _ _ Hr). subst tracked. apply elem_of_app. by left.
      + apply list_elem_of_singleton in Hp' as ->. by apply Hgone.
    - intros k p' q Hk Hr. rewrite length_app in Hk. simpl in Hk.
      destruct (decide (k = length done)) as [->|Hne].
      + destruct Hr as (Hl & ? & ?). rewrite Hkp in Hl. injection Hl as <-.
        by apply Hadd.
      + apply Hkeep; [apply (Hnew k p' q); [lia|done]|].
        intros ->. by apply (Hfresh _ _ _ Hr). }
  rewrite rename_loop_cons in Hrun.
  destruct (decide (suffix p = ".mp4")) as [Hs|Hs1];
    [|destruct (decide (suffix p = ".jpg")) as [Hs|Hs2];
      [|destruct (decide (suffix p ∈ audio_suffixes)) as [Hs|Hs3]]].
  - rewrite (bool_decide_true (suffix p = ".mp4")) in Hrun by done.
    apply bind_inv in Hrun as (q & w0 & Hq & Hrun).
    apply with_name_inv in Hq as [-> ->].
    apply bind_inv in Hrun as ([] & w1 & Hmv & Hrun).
    apply attempt_rename_inv in Hmv.
    rewrite <-(frames_after_other done p) in Hrun
      by (unfold is_frame; by rewrite (kind_of_video p Hs)).
    set (q := mkPath (parent p) (vrn +:+ suffix p)) in *.
    assert (renames_to vrn tracked (length done) p q) as Hr.
    { split_and!; [done|by rewrite (kind_of_video p Hs)|].
      unfold renamed_at. by rewrite (kind_of_video p Hs). }
    assert (∀ q', renames_to vrn tracked (length done) p q' → q' = q) as Hfun.
    { intros q' (_ & _ & Hq'). destruct Hr as (_ & _ & Hq''). congruence. }
    destruct (Hstep w1) as [H1 H2].
    + intros x. rewrite Hmv, elem_of_union, elem_of_difference, !elem_of_singleton.
      intros [->|[? _]]; [by right|by left].
    + intros x Hx Hne.
      rewrite Hmv, elem_of_union, elem_of_difference, !elem_of_singleton.
      by right.
    + intros _. rewrite Hmv, elem_of_union, elem_of_difference, !elem_of_singleton.
      intros [Heq|[_ ?]]; [|done]. by apply (Hqp q).
    + intros q' Hq'. rewrite (Hfun q' Hq'), Hmv, elem_of_union, elem_of_singleton.
      by left.
    + by apply (IH _ _ _ _ _ Htr' Hrun).
  - rewrite (bool_decide_false (suffix p = ".mp4")),
      (bool_decide_true (suffix p = ".jpg")) in Hrun by done.
    apply bind_inv in Hrun as (q & w0 & Hq & Hrun).
    apply with_name_inv in Hq as [-> ->].
    apply bind_inv in Hrun as ([] & w1 & Hmv & Hrun).
    apply attempt_rename_inv in Hmv.
    rewrite <-(frames_after_frame done p) in Hrun
      by (unfold is_frame; by rewrite (kind_of_frame p Hs)).
    set (q := mkPath (parent p) _) in *.
    assert (renames_to vrn tracked (length done) p q) as Hr.
    { split_and!; [done|by rewrite (kind_of_frame p Hs)|].
      unfold renamed_at. rewrite (kind_of_frame p Hs).
      by rewrite Htr, take_app_length. }
    assert (∀ q', renames_to vrn tracked (length done) p q' → q' = q) as Hfun.
    { intros q' (_ & _ & Hq'). destruct Hr as (_ & _ & Hq''). congruence. }
    destruct (Hstep w1) as [H1 H2].
    + intros x. rewrite Hmv, elem_of_union, elem_of_difference, !elem_of_singleton.
      intros [->|[? _]]; [by right|by left].
    + intros x Hx Hne.
      rewrite Hmv, elem_of_union, elem_of_difference, !elem_of_singleton.
      by right.
    + intros _. rewrite Hmv, elem_of_union, elem_of_difference, !elem_of_singleton.
      intros [Heq|[_ ?]]; [|done]. by apply (Hqp q).
    + intros q' Hq'. rewrite (Hfun q' Hq'), Hmv, elem_of_union, elem_of_singleton.
      by left.
    + by apply (IH _ _ _ _ _ Htr' Hrun).
  - rewrite (bool_decide_false (suffix p = ".mp4")),
      (bool_decide_false (suffix p = ".jpg")),
      (bool_decide_true (suffix p ∈ audio_suffixes)) in Hrun by done.
    apply bind_inv in Hrun as ([] & w1 & Hrm & Hrun).
    apply attempt_delete_audio_inv in Hrm.
    rewrite <-(frames_after_other done p) in Hrun
      by (unfold is_frame; by rewrite (kind_of_audio p)).
    assert (∀ q, ¬ renames_to vrn tracked (length done) p q) as Hno.
    { intros q (_ & _ & Hq). unfold renamed_at in Hq.
      by rewrite (kind_of_audio p) in Hq. }
    destruct (Hstep w1) as [H1 H2].
    + intros x. rewrite Hrm, elem_of_difference. intros [? _]. by left.
    + intros x Hx Hne. by rewrite Hrm, elem_of_difference, elem_of_singleton.
    + intros _. rewrite Hrm, elem_of_difference, elem_of_singleton. by intros [_ ?].
    + intros q Hq. by destruct (Hno q).
    + by apply (IH _ _ _ _ _ Htr' Hrun).
  - rewrite (bool_decide_false (suffix p = ".mp4")),
      (bool_decide_false (suffix p = ".jpg")),
      (bool_decide_false (suffix p ∈ audio_suffixes)) in Hrun by done.
    rewrite <-(frames_after_other done p) in Hrun
      by (unfold is_frame; by rewrite (kind_of_other p)).
    destruct (Hstep w) as [H1 H2].
    + intros x ?. by left.
    + done.
    + intros Hk. by destruct Hk; apply kind_of_other.
    + intros q (_ & Hk & _). by destruct Hk; apply kind_of_other.
    + by apply (IH _ _ _ _ _ Htr' Hrun).
Qed.



End RenameFacts.

(** * Further properties *)

(** ** TimeCodec: the two directions together *)

Module TimeCodecMore.

Import TimeCodec TimeCodecFacts.

Lemma canonical_render t :
  canonical t
  = if bool_decide (hour t ≠ 0)
    then render_HMS (hour t) (minute t) (second t)
    else render_MS (minute t) (second t).
Proof. done. Qed.

(** The canonical rendering of a time of day is parsed back to its seconds. *)
Lemma valid_time_canonical t :
  check_time_fields t → valid_time (canonical t) = Ok (seconds_of t).
Proof.
  intros Ht. apply check_time_fields_spec in Ht as (Hh & Hm & Hs).
  rewrite valid_time_unfold, canonical_render. case_bool_decide as Hz.
  - by rewrite strptime_render_HMS.
  - assert (hour t = 0) as Hh0 by (destruct (decide (hour t = 0)); done).
    pose proof (strptime_render_MS_not_HMS (minute t) (second t) Hm Hs) as Hn.
    destruct (strptime (render_MS _ _) fmt_HMS) as [?|e msg]; [done|].
    rewrite strptime_render_MS by done. unfold seconds_of. simpl. by rewrite Hh0.
Qed.

Lemma valid_time_range s n : valid_time s = Ok n → 0 ≤ n < 86400.
Proof.
  rewrite valid_time_unfold. intros H.
  assert (∃ t, check_time_fields t ∧ n = seconds_of t) as (t & Ht & ->).
  { pose proof (strptime_outcome s fmt_HMS) as H1.
    pose proof (strptime_outcome s fmt_MS) as H2.
    destruct (strptime s fmt_HMS) as [t|]; [exists t; by simplify_eq|].
    destruct (strptime s fmt_MS) as [t|]; [exists t; by simplify_eq|done]. }
  by apply time_of_day_seconds_of.
Qed.



(** X2. For every number of seconds [n] with [0 <= n < 315537897600], the
    text that [format_seconds_to_hhmmss] returns is accepted by [valid_time],
    which reads it back as [n mod 86400]: formatting loses the whole days
    and nothing else. *)
Theorem formatted_time_is_read_back (n : Z) :
  0 ≤ n < FORMAT_LIMIT →
  ∃ text, format_seconds_to_hhmmss n = Ok text
          ∧ valid_time text = Ok (n `mod` 86400).
Proof.
  intros Hn. exists (canonical (time_of_day (n `mod` 86400))).
  split; [by apply format_seconds_eval|].
  destruct (time_of_day_ok (n `mod` 86400)) as [Hc Hs];
    [apply Z.mod_pos_bound; lia|].
  rewrite <-Hs at 2. by apply valid_time_canonical.
Qed.

Lemma formatted_time_is_read_back_witness :
  ∃ text, format_seconds_to_hhmmss 90123 = Ok text
          ∧ valid_time text = Ok (90123 `mod` 86400).
Proof. apply (formatted_time_is_read_back 90123). by vm_compute. Defined.

(** X3. [format_seconds_to_hhmmss] returns a text exactly for
    [0 <= n < 315537897600]; for every other integer it raises
    [OverflowError], and it raises nothing else. *)
Theorem format_returns_exactly_in_range (n : Z) :
  ((∃ text, format_seconds_to_hhmmss n = Ok text) ↔ 0 ≤ n < FORMAT_LIMIT)
  ∧ (raised (format_seconds_to_hhmmss n) = Some OverflowError
     ↔ n < 0 ∨ FORMAT_LIMIT ≤ n)
  ∧ (raised (format_seconds_to_hhmmss n) = None
     ∨ raised (format_seconds_to_hhmmss n) = Some OverflowError).
Proof.
  destruct (decide (0 ≤ n < FORMAT_LIMIT)) as [Hin|Hout].
  - rewrite (format_seconds_eval n Hin). simpl. split_and!.
    + split; [done|]. by eexists.
    + split; [done|]. lia.
    + by left.
  - assert (n < 0 ∨ FORMAT_LIMIT ≤ n) as Hor by lia.
    pose proof (format_seconds_overflow n Hor) as Hr. rewrite Hr. split_and!.
    + split; [|done]. intros [text Ht]. by rewrite Ht in Hr.
    + done.
    + by right.
Qed.

(** A field written as a plain decimal number and followed by a colon is
    read back by its directive. *)
Lemma re_match_plain d format v rest found r :
  field_range d v →
  re_match format (String ":" rest) (set_field d v found) = Some r →
  re_match (Directive d :: format) (pretty v +:+ String ":" rest) found = Some r.
Proof.
  intros Hv Hk. destruct d; simpl in Hv; enum_range v;
    match goal with
    | |- context [pretty ?v] =>
        let s := eval vm_compute in (pretty v) in change (pretty v) with s
    end;
    simpl in Hk |- *;
    repeat match goal with
    | |- context [int_of_digits ?s] =>
        let n := eval vm_compute in (int_of_digits s) in
        change (int_of_digits s) with n
    end;
    change (EmptyString +:+ String ":" rest) with (String ":" rest);
    by rewrite Hk.
Qed.

(** The same at the end of the text. *)
Lemma re_match_plain_end d v found :
  field_range d v →
  re_match [Directive d] (pretty v) found = Some (set_field d v found, EmptyString).
Proof.
  intros Hv. destruct d; simpl in Hv; enum_range v; by vm_compute.
Qed.

Lemma unpadded_MS_all :
  forallb (λ m,
    forallb (λ s,
      match valid_time (pretty m +:+ ":" +:+ pretty s) with
      | Ok k => bool_decide (k = m * 60 + s)
      | Raise _ _ => false
      end) (seqZ 0 60))
    (seqZ 0 60) = true.
Proof. by vm_compute. Qed.

Lemma re_match_colon format rest found r :
  re_match format rest found = Some r →
  re_match (Literal ":" :: format) (String ":" rest) found = Some r.
Proof. done. Qed.

Lemma append_colon (a b : string) : a +:+ ":" +:+ b = a +:+ String ":" b.
Proof. done. Qed.

(** X4. The fields need not be padded: for all [h < 24], [m < 60], [s < 60]
    the text [h:m:s] written with plain decimal numbers (["1:2:3"]) is
    accepted and gives [h*3600 + m*60 + s], and [m:s] gives [m*60 + s]. *)
Theorem unpadded_times_are_accepted (h m s : Z) :
  0 ≤ h < 24 → 0 ≤ m < 60 → 0 ≤ s < 60 →
  valid_time (pretty h +:+ ":" +:+ pretty m +:+ ":" +:+ pretty s)
  = Ok (h * 3600 + m * 60 + s)
  ∧ valid_time (pretty m +:+ ":" +:+ pretty s) = Ok (m * 60 + s).
Proof.
  intros Hh Hm Hs. split.
  - rewrite valid_time_unfold.
    assert (strptime (pretty h +:+ ":" +:+ pretty m +:+ ":" +:+ pretty s)
                     fmt_HMS = Ok (mkTime h m s)) as ->; [|done].
    apply strptime_matched; [|done..]. unfold fmt_HMS. rewrite !append_colon.
    apply (re_match_plain dH _ h); [done|]. apply re_match_colon.
    apply (re_match_plain dM _ m); [done|]. apply re_match_colon.
    by apply (re_match_plain_end dS s).
  - pose proof unpadded_MS_all as H.
    rewrite forallb_forall in H.
    specialize (H m ltac:(apply list_elem_of_In, elem_of_seqZ; lia)).
    rewrite forallb_forall in H.
    specialize (H s ltac:(apply list_elem_of_In, elem_of_seqZ; lia)).
    destruct (valid_time _); [|done].
    apply bool_decide_eq_true in H. by subst.
Qed.

Lemma unpadded_times_are_accepted_witness :
  valid_time "1:2:3" = Ok 3723 ∧ valid_time "2:3" = Ok 123.
Proof. apply (unpadded_times_are_accepted 1 2 3); lia. Defined.

End TimeCodecMore.

(** ** FrameScheduler: the shape of the schedule *)

Module FrameSchedulerMore.

Import FrameScheduler Candidates FrameSchedulerFacts.
Local Open Scope Qc_scope.

Lemma two_halves : one_half + one_half = 1.
Proof. by apply Qc_is_canon. Qed.

(** Both branches of [start_timestamp] put the start
    [interval * (count - 1) / 2] before the incident. *)
Lemma start_timestamp_centred ts n iv :
  start_timestamp ts n iv = ts - iv * Qc_of_Z (n - 1) * one_half.
Proof.
  unfold start_timestamp.
  pose proof (Z.div_mod n 2 ltac:(done)) as Hn.
  pose proof (Z.mod_pos_bound n 2 ltac:(done)) as Hb.
  set (k := (n `div` 2)%Z) in *.
  case_bool_decide as Hm.
  - assert (n - 1 = 2 * k - 1)%Z as -> by lia.
    rewrite Z2Qc_inj_sub, Z2Qc_inj_mul, Z2Qc_inj_2, Z2Qc_inj_1.
    transitivity (ts - iv * (2 * Qc_of_Z k - 1) * one_half
                  + iv * Qc_of_Z k * (one_half + one_half - 1));
      [ring|rewrite two_halves; ring].
  - assert (n - 1 = 2 * k)%Z as -> by lia.
    rewrite Z2Qc_inj_mul, Z2Qc_inj_2.
    transitivity (ts - iv * Qc_of_Z k * (one_half + one_half));
      [rewrite two_halves; ring|ring].
Qed.

(** X5. The candidate timestamps are placed symmetrically about the
    incident: for every count, interval and index [i], the [i]-th candidate
    and the candidate of index [count - 1 - i] are mirror images, their sum
    being twice the incident timestamp. *)
Theorem candidates_mirror_about_incident (ts iv : Qc) (n i : Z) :
  let start := start_timestamp ts n iv in
  (start + Qc_of_Z i * iv) + (start + Qc_of_Z (n - 1 - i) * iv) = ts + ts.
Proof.
  intros start. unfold start. rewrite start_timestamp_centred.
  rewrite !Z2Qc_inj_sub, Z2Qc_inj_1.
  transitivity (ts + ts + iv * (Qc_of_Z n - 1) * (1 - (one_half + one_half)));
    [ring|rewrite two_halves; ring].
Qed.


Lemma schedule_of_candidates ts d n iv :
  prepare_frame_capture_timestamps ts d n iv
  = sorted (list_of_set (filter (λ t, is_timestamp_valid t d) (candidates ts n iv))).
Proof.
  unfold prepare_frame_capture_timestamps. by rewrite capture_loop_filter.
Qed.

Lemma length_list_of_set (xs : list Qc) : (length (list_of_set xs) ≤ length xs)%nat.
Proof.
  unfold list_of_set. induction xs as [|x xs IH]; [done|]. simpl.
  destruct (decide (x ∈ (list_to_set xs : gset Qc))) as [Hin|Hin].
  - assert ({[x]} ∪ (list_to_set xs : gset Qc) = list_to_set xs) as ->
      by (clear -Hin; set_solver).
    lia.
  - rewrite elements_union_singleton by done. simpl. lia.
Qed.

(** X7. The schedule never has more timestamps than the requested count,
    and it is empty when the count is zero or negative. *)
Theorem schedule_length_at_most_count (ts d iv : Qc) (n : Z) :
  (length (prepare_frame_capture_timestamps ts d n iv) ≤ Z.to_nat n)%nat
  ∧ ((n ≤ 0)%Z → prepare_frame_capture_timestamps ts d n iv = []).
Proof.
  assert (length (prepare_frame_capture_timestamps ts d n iv) ≤ Z.to_nat n)%nat
    as Hlen.
  { rewrite schedule_of_candidates. unfold sorted.
    rewrite merge_sort_Permutation.
    etrans; [apply length_list_of_set|].
    etrans; [apply length_filter|].
    unfold candidates, Py.range. by rewrite length_fmap, length_seqZ. }
  split; [done|]. intros Hn.
  apply length_zero_iff_nil. lia.
Qed.

Lemma candidates_ascending (start iv : Qc) (lo : Z) (len : nat) :
  0 < iv →
  StronglySorted Qclt ((λ i, start + Qc_of_Z i * iv) <$> seqZ lo (Z.of_nat len)).
Proof.
  intros Hiv. revert lo. induction len as [|len IH]; intros lo.
  { constructor. }
  rewrite Nat2Z.inj_succ, seqZ_cons by lia. simpl.
  replace (Z.pred (Z.succ (Z.of_nat len))) with (Z.of_nat len) by lia.
  constructor; [apply IH|].
  apply Forall_fmap, Forall_forall. intros j [Hj _]%elem_of_seqZ. simpl.
  apply Qcplus_lt_mono_l, Qcmult_lt_mono_pos_r; [done|].
  apply (proj1 (Z2Qc_inj_lt _ _)). lia.
Qed.



(** X9. With an interval of zero all candidates coincide with the incident
    timestamp, and the duplicates are removed: the schedule is the single
    timestamp of the incident when the count is positive and the incident
    lies within the video, and is empty otherwise. *)
Theorem zero_interval_gives_one_frame (ts d : Qc) (n : Z) :
  prepare_frame_capture_timestamps ts d n 0
  = if bool_decide (0 < n)%Z && is_timestamp_valid ts d then [ts] else [].
Proof.
  apply strictly_ascending_unique.
  - apply sorted_set_strictly_ascending.
  - destruct (_ && _); repeat constructor.
  - intros x. rewrite elem_of_schedule. unfold kept_candidate.
    rewrite <-start_timestamp_spec, start_timestamp_centred.
    assert (∀ i, ts - 0 * Qc_of_Z (n - 1) * one_half + Qc_of_Z i * 0 = ts) as Hc
      by (intros i; ring).
    destruct (bool_decide (0 < n)%Z && is_timestamp_valid ts d) eqn:E.
    + apply andb_true_iff in E as [Hn%bool_decide_eq_true Hv%Is_true_true].
      apply is_timestamp_valid_spec in Hv as [??].
      rewrite list_elem_of_singleton. split.
      * intros [(i & _ & ->) _]. apply Hc.
      * intros ->. split; [|done]. exists 0%Z. split; [lia|by rewrite Hc].
    + rewrite elem_of_nil. split; [|done].
      intros [(i & Hi & ->) [??]]. rewrite Hc in *.
      apply andb_false_iff in E as [Hn%bool_decide_eq_false|Hv].
      * lia.
      * apply Is_true_false in Hv. apply Hv, is_timestamp_valid_spec. done.
Qed.

End FrameSchedulerMore.

(** ** Interval validation and trimming windows *)

Module IntervalMore.

Import FrameScheduler IntervalFacts.
Local Open Scope Qc_scope.

(** X10. For a positive frame rate and a requested interval that is not
    negative, the validated interval is at least one frame period and at
    least the requested interval, and validating it again changes nothing
    and logs nothing. *)
Theorem validated_interval_is_stable (f r : Qc) :
  0 < f → 0 ≤ r →
  ∃ x, fst (validate_frame_capture_interval f r) = Ok x
       ∧ 1 / f ≤ x ∧ r ≤ x
       ∧ validate_frame_capture_interval f x = (Ok x, []).
Proof.
  intros Hf Hr.
  assert (f ≠ 0) as Hf0 by (intros ->; by apply (irreflexivity Qclt 0)).
  destruct (Qclt_le_dec r (1 / f)) as [Hlt|Hge].
  - exists (1 / f). rewrite validate_adjusts by done. split_and!.
    + done.
    + apply Qcle_refl.
    + by apply Qclt_le_weak.
    + apply validate_keeps; [done|apply Qcle_refl].
  - exists r. rewrite validate_keeps by done. split_and!.
    + done.
    + done.
    + apply Qcle_refl.
    + done.
Qed.

Lemma validated_interval_is_stable_witness :
  ∃ x, fst (validate_frame_capture_interval (Qc_of_Z 25) (Q2Qc (1 # 100))) = Ok x
       ∧ 1 / Qc_of_Z 25 ≤ x ∧ Q2Qc (1 # 100) ≤ x
       ∧ validate_frame_capture_interval (Qc_of_Z 25) x = (Ok x, []).
Proof.
  apply (validated_interval_is_stable (Qc_of_Z 25) (Q2Qc (1 # 100)));
    reflexivity || (vm_compute; discriminate).
Defined.

End IntervalMore.

Module TrimWindowMore.

Import TrimWindow TrimWindowFacts.
Local Open Scope Qc_scope.

(** X11. For an incident within the video, [0 <= incident <= duration], and
    offsets that are not negative, each window contains the incident and is
    no longer than its two offsets together; it starts exactly [pre] before
    the incident when that is not before the start of the video, and ends
    exactly [post] after it when that is not after the end. *)
Theorem window_contains_incident (ts d vpre vpost apre apost : Qc) :
  0 ≤ ts → ts ≤ d → 0 ≤ vpre → 0 ≤ vpost → 0 ≤ apre → 0 ≤ apost →
  let '(video_start, video_end, audio_start, audio_end) :=
    calculate_time_offsets ts d vpre vpost apre apost in
  (video_start ≤ ts ∧ ts ≤ video_end ∧ video_end - video_start ≤ vpre + vpost)
  ∧ (audio_start ≤ ts ∧ ts ≤ audio_end ∧ audio_end - audio_start ≤ apre + apost)
  ∧ (vpre ≤ ts → video_start = ts - vpre)
  ∧ (ts + vpost ≤ d → video_end = ts + vpost)
  ∧ (apre ≤ ts → audio_start = ts - apre)
  ∧ (ts + apost ≤ d → audio_end = ts + apost).
Proof.
  intros H0 Hd Hvpre Hvpost Hapre Hapost. simpl.
  assert (∀ pre, 0 ≤ pre →
            Py.max 0 (ts - pre) ≤ ts ∧ ts - pre ≤ Py.max 0 (ts - pre)
            ∧ (pre ≤ ts → Py.max 0 (ts - pre) = ts - pre)) as Hmax.
  { intros pre Hpre. destruct (py_max_is_max 0 (ts - pre)) as ([Hs|Hs] & Hs0 & Hsa);
      rewrite Hs in *; split_and!; try done; try qc_order.
    intros Hle. apply Qcle_antisym; qc_order. }
  assert (∀ post, 0 ≤ post →
            ts ≤ Py.min (ts + post) d ∧ Py.min (ts + post) d ≤ ts + post
            ∧ (ts + post ≤ d → Py.min (ts + post) d = ts + post)) as Hmin.
  { intros post Hpost. destruct (py_min_is_min (ts + post) d) as ([He|He] & Heb & Hed);
      rewrite He in *; split_and!; try done; try qc_order.
    intros Hle. apply Qcle_antisym; qc_order. }
  destruct (Hmax vpre Hvpre) as (V1 & V2 & V3).
  destruct (Hmin vpost Hvpost) as (V4 & V5 & V6).
  destruct (Hmax apre Hapre) as (A1 & A2 & A3).
  destruct (Hmin apost Hapost) as (A4 & A5 & A6).
  split_and!; try done.
  - clear -V2 V5. revert V2 V5.
    generalize (Py.max 0 (ts - vpre)) (Py.min (ts + vpost) d).
    intros a b ??. qc_order.
  - clear -A2 A5. revert A2 A5.
    generalize (Py.max 0 (ts - apre)) (Py.min (ts + apost) d).
    intros a b ??. qc_order.
Qed.

Lemma window_contains_incident_witness :
  let '(video_start, video_end, audio_start, audio_end) :=
    calculate_time_offsets (Qc_of_Z 5) (Qc_of_Z 100) (Qc_of_Z 10) (Qc_of_Z 10)
                           (Qc_of_Z 2) (Qc_of_Z 3) in
  (video_start ≤ Qc_of_Z 5 ∧ Qc_of_Z 5 ≤ video_end
   ∧ video_end - video_start ≤ Qc_of_Z 10 + Qc_of_Z 10)
  ∧ (audio_start ≤ Qc_of_Z 5 ∧ Qc_of_Z 5 ≤ audio_end
     ∧ audio_end - audio_start ≤ Qc_of_Z 2 + Qc_of_Z 3)
  ∧ (Qc_of_Z 10 ≤ Qc_of_Z 5 → video_start = Qc_of_Z 5 - Qc_of_Z 10)
  ∧ (Qc_of_Z 5 + Qc_of_Z 10 ≤ Qc_of_Z 100 → video_end = Qc_of_Z 5 + Qc_of_Z 10)
  ∧ (Qc_of_Z 2 ≤ Qc_of_Z 5 → audio_start = Qc_of_Z 5 - Qc_of_Z 2)
  ∧ (Qc_of_Z 5 + Qc_of_Z 3 ≤ Qc_of_Z 100 → audio_end = Qc_of_Z 5 + Qc_of_Z 3).
Proof.
  apply (window_contains_incident (Qc_of_Z 5) (Qc_of_Z 100) (Qc_of_Z 10)
           (Qc_of_Z 10) (Qc_of_Z 2) (Qc_of_Z 3)); by vm_compute.
Defined.

End TrimWindowMore.

(** ** MediaTranscoder: frame captures *)

Module CaptureFacts.

Import IO Tracker Transcoder Naming.

Lemma frame_capture_paths_cons uuid video i n :
  frame_capture_paths uuid video i (S n)
  = frame_capture_path uuid video i :: frame_capture_paths uuid video (S i) n.
Proof. done. Qed.

(** As long as the engine completes, the loop goes on: after the timestamps
    [done] it has written and tracked their frame captures, in order, and
    continues with the next frame number. *)
Lemma capture_loop_prefix run video done rest :
  ∀ i w,
    (∀ k ts, done !! k = Some ts →
             run (capture_command (temp_uuid (processor w)) video (i + k)%nat ts)
             = Completed) →
    ∃ w1,
      capture_loop run video i (done ++ rest) w
      = capture_loop run video (i + length done) rest w1
      ∧ files w1
        = list_to_set (frame_capture_paths (temp_uuid (processor w)) video i
                                           (length done)) ∪ files w
      ∧ locked w1 = locked w ∧ stdin w1 = stdin w
      ∧ logs w1
        = logs w ++ saved_records (temp_uuid (processor w)) video i done
      ∧ temp_uuid (processor w1) = temp_uuid (processor w)
      ∧ created_files (processor w1)
        = created_files (processor w)
          ++ frame_capture_paths (temp_uuid (processor w)) video i (length done).
Proof.
  induction done as [|ts done IH]; intros i w Hrun.
  { exists w. rewrite Nat.add_0_r, !app_nil_r. simpl.
    split_and!; try done. clear. set_solver. }
  pose proof (Hrun 0%nat ts eq_refl) as H0. rewrite Nat.add_0_r in H0.
  set (p := frame_capture_path (temp_uuid (processor w)) video i).
  set (w0 := mkWorld ({[p]} ∪ files w) (locked w) (stdin w)
                     (logs w ++ [(DEBUG, FrameCaptureSaved p ts)])
                     (mkVideoProcessor (temp_uuid (processor w))
                                       (created_files (processor w) ++ [p]))).
  assert (capture_loop run video i ((ts :: done) ++ rest) w
          = capture_loop run video (S i) (done ++ rest) w0) as Hstep.
  { simpl. unfold mbind, io_bind, bind. simpl.
    unfold capture_command, frame_capture_path in H0. simpl in H0. by rewrite H0. }
  destruct (IH (S i) w0) as (w1 & Heq & Hf & Hl & Hs & Hlg & Hu & Hc).
  { intros k ts' Hk. replace (S i + k)%nat with (i + S k)%nat by lia.
    by apply (Hrun (S k)). }
  exists w1. rewrite Hstep, Heq. simpl length. rewrite frame_capture_paths_cons.
  replace (S i + length done)%nat with (i + S (length done))%nat by lia.
  split_and!; [done| |done|done| |done|].
  - rewrite Hf. simpl. fold p. clear. set_solver.
  - rewrite Hlg. unfold saved_records. simpl length.
    rewrite frame_capture_paths_cons. simpl. fold p. by rewrite <-app_assoc.
  - rewrite Hc. simpl. fold p. by rewrite <-app_assoc.
Qed.





(** X14. When the video file does not exist, [create_frame_captures] raises
    [VideoProcessingError] before doing anything: the engine is not called
    (the outcome is the same for every engine), nothing is written, logged
    or tracked. *)
Theorem missing_video_is_rejected run (timestamps : list Qc) video w :
  video ∉ files w →
  create_frame_captures run timestamps video w
  = (Raise VideoProcessingError ("Invalid video path: " +:+ str video), w).
Proof.
  intros Hv. unfold create_frame_captures, mbind, io_bind, bind, path_exists.
  by rewrite bool_decide_false.
Qed.

Lemma missing_video_is_rejected_witness :
  create_frame_captures (λ _, Completed) [Qc_of_Z 7] (mkPath "/v" "clip.mp4")
                        (mkWorld ∅ ∅ [] [] (mkVideoProcessor "0f3a" []))
  = (Raise VideoProcessingError "Invalid video path: /v/clip.mp4",
     mkWorld ∅ ∅ [] [] (mkVideoProcessor "0f3a" [])).
Proof.
  apply (missing_video_is_rejected (λ _, Completed) [Qc_of_Z 7]
           (mkPath "/v" "clip.mp4")
           (mkWorld ∅ ∅ [] [] (mkVideoProcessor "0f3a" []))).
  apply not_elem_of_empty.
Defined.

End CaptureFacts.

(** ** File names of a run *)

Module NamingFacts.

Import IO Tracker Transcoder Naming RenameFacts CaptureFacts.

Lemma append_nil_r (a : string) : a +:+ EmptyString = a.
Proof. induction a as [|c a IH]; [done|]. by rewrite append_cons, IH. Qed.

Lemma append_inj_r (a b c : string) : a +:+ c = b +:+ c → a = b.
Proof.
  revert b. induction a as [|x a IH]; intros [|y b] H.
  - done.
  - apply (f_equal String.length) in H.
    rewrite !length_append in H. simpl in H. lia.
  - apply (f_equal String.length) in H.
    rewrite !length_append in H. simpl in H. lia.
  - rewrite !append_cons in H. injection H as -> H. f_equal. by apply IH.
Qed.

Lemma append_not_empty (a b : string) : b ≠ EmptyString → a +:+ b ≠ EmptyString.
Proof.
  intros Hb H. apply (f_equal String.length) in H.
  rewrite length_append in H. destruct b; [done|]. simpl in H. lia.
Qed.

Lemma wav_is_extension : is_extension ".wav".
Proof. split_and!; [|simpl; lia|done|done]. intros j. done. Qed.

(** A name that ends in an extension, after a non-empty stem. *)
Lemma suffix_of_name d a b ext :
  is_extension ext → b ≠ EmptyString → suffix (mkPath d (a +:+ b +:+ ext)) = ext.
Proof.
  intros Hext Hb. rewrite <-append_assoc, suffix_app by done.
  rewrite bool_decide_false; [done|]. by apply append_not_empty.
Qed.

Lemma frame_capture_is_frame uuid video i :
  suffix (frame_capture_path uuid video i) = ".jpg".
Proof.
  unfold frame_capture_path.
  assert (uuid +:+ "_" +:+ pretty i +:+ ".jpg"
          = uuid +:+ ("_" +:+ pretty i) +:+ ".jpg") as -> by done.
  apply suffix_of_name; [apply jpg_is_extension|done].
Qed.

Lemma frame_capture_path_inj uuid video : Inj (=) (=) (frame_capture_path uuid video).
Proof.
  intros i j H. unfold frame_capture_path in H. injection H as H.
  apply (inj (String.app uuid)) in H. rewrite !append_cons in H.
  injection H as H. change (pretty i +:+ ".jpg" = pretty j +:+ ".jpg") in H.
  apply append_inj_r in H. by apply (inj pretty).
Qed.

Lemma frame_capture_paths_NoDup uuid video i n :
  NoDup (frame_capture_paths uuid video i n).
Proof.
  unfold frame_capture_paths.
  apply (NoDup_fmap_2 _ (Inj0 := frame_capture_path_inj uuid video)), NoDup_seq.
Qed.

Lemma elem_of_frame_capture_paths uuid video i n p :
  p ∈ frame_capture_paths uuid video i n
  ↔ ∃ j, (i ≤ j < i + n)%nat ∧ p = frame_capture_path uuid video j.
Proof.
  unfold frame_capture_paths. rewrite list_elem_of_fmap.
  split; intros (j & H1 & H2); exists j.
  - apply elem_of_seq in H2. done.
  - split; [done|]. by apply elem_of_seq.
Qed.

(** The frame captures of a run are renamed with consecutive numbers. *)
Lemma renamed_from_frames vrn uuid video n :
  ∀ i done rest,
    renamed_from vrn done (frame_capture_paths uuid video i n ++ rest)
    = (frame_name video vrn <$> seq (S (length (filter is_frame done))) n)
      ++ renamed_from vrn (done ++ frame_capture_paths uuid video i n) rest.
Proof.
  induction n as [|n IH]; intros i done rest.
  { simpl. by rewrite app_nil_r. }
  rewrite frame_capture_paths_cons. simpl app at 1.
  rewrite renamed_from_cons. unfold renamed_at.
  pose proof (frame_capture_is_frame uuid video i) as Hs.
  rewrite (kind_of_frame _ Hs), frames_before, Hs. cbv zeta.
  rewrite IH. simpl seq. rewrite fmap_cons.
  assert (is_frame (frame_capture_path uuid video i) = true) as Hf
    by (unfold is_frame; by rewrite (kind_of_frame _ Hs)).
  rewrite (frames_after_frame done _ Hf), Nat.add_1_r.
  rewrite <-(app_assoc done [_]). done.
Qed.



(** *** Stems and the names of the trimmed files *)

Lemma substring_split (s : string) (i : nat) :
  (i ≤ String.length s)%nat →
  String.substring 0 i s +:+ String.substring i (String.length s - i) s = s.
Proof.
  revert i. induction s as [|c s IH]; intros [|i] Hi; simpl in Hi |- *.
  - done.
  - lia.
  - change ("" +:+ ?x) with x. f_equal.
    specialize (IH 0%nat ltac:(lia)). rewrite Nat.sub_0_r in IH.
    destruct s; exact IH.
  - rewrite append_cons. f_equal. apply IH. lia.
Qed.

Lemma rfind_dot_bounds (s : string) (k i : nat) :
  rfind_dot s k = Some i → (k ≤ i < k + String.length s)%nat.
Proof.
  revert k. induction s as [|c s IH]; intros k H; simpl in H; [done|].
  destruct (rfind_dot s (S k)) as [j|] eqn:E.
  - injection H as ->. apply IH in E. simpl. lia.
  - case_bool_decide; [|done]. injection H as ->. simpl. lia.
Qed.

(** The text from the last dot on starts with that dot. *)
Lemma rfind_dot_starts (s : string) (k i n : nat) :
  rfind_dot s k = Some i →
  ∃ r, String.substring (i - k) (S n) s = String "." r.
Proof.
  revert k. induction s as [|c s IH]; intros k H; simpl in H; [done|].
  destruct (rfind_dot s (S k)) as [j|] eqn:E.
  - injection H as ->. pose proof (rfind_dot_bounds _ _ _ E) as Hb.
    destruct (IH _ E) as [r Hr]. exists r.
    replace (i - k)%nat with (S (i - S k)) by lia. done.
  - case_bool_decide as Hc; [|done]. injection H as ->. subst c.
    rewrite Nat.sub_diag. simpl. by eexists.
Qed.

(** [name == stem + suffix], and a suffix is empty or starts with a dot. *)
Lemma stem_suffix (p : Path) :
  name p = stem p +:+ suffix p
  ∧ (suffix p = EmptyString ∨ ∃ r, suffix p = String "." r).
Proof.
  unfold stem, suffix. destruct (rfind_dot (name p) 0) as [i|] eqn:E.
  - destruct (_ && _) eqn:Hc.
    + apply andb_true_iff in Hc as [H1%Nat.ltb_lt H2%Nat.ltb_lt]. split.
      * symmetry. apply substring_split. lia.
      * right. destruct (rfind_dot_starts _ _ _ (String.length (name p) - i - 1) E)
          as [r Hr].
        exists r. rewrite Nat.sub_0_r in Hr.
        by replace (String.length (name p) - i)%nat
          with (S (String.length (name p) - i - 1)) by lia.
    + split; [by rewrite append_nil_r|by left].
  - split; [by rewrite append_nil_r|by left].
Qed.

Lemma trimmed_video_suffix d a uuid :
  suffix (mkPath d (a +:+ "_" +:+ uuid +:+ "_trim.mp4")) = ".mp4".
Proof.
  assert (a +:+ "_" +:+ uuid +:+ "_trim.mp4"
          = a +:+ ("_" +:+ uuid +:+ "_trim") +:+ ".mp4") as ->.
  { f_equal. rewrite !append_cons. f_equal.
    change ("" +:+ ?x) with x. by rewrite append_assoc. }
  apply suffix_of_name; [apply mp4_is_extension|done].
Qed.

Lemma trimmed_audio_suffix d a uuid :
  suffix (mkPath d (a +:+ "_" +:+ uuid +:+ "_trim_audio.wav")) = ".wav".
Proof.
  assert (a +:+ "_" +:+ uuid +:+ "_trim_audio.wav"
          = a +:+ ("_" +:+ uuid +:+ "_trim_audio") +:+ ".wav") as ->.
  { f_equal. rewrite !append_cons. f_equal.
    change ("" +:+ ?x) with x. by rewrite append_assoc. }
  apply suffix_of_name; [apply wav_is_extension|done].
Qed.

Lemma trimmed_name_is_new (p : Path) (rest : string) :
  name p ≠ stem p +:+ String "_" rest.
Proof.
  destruct (stem_suffix p) as [Hn Hs]. rewrite Hn at 1.
  intros H%(inj (String.app (stem p))). destruct Hs as [Hs|[r Hs]]; by rewrite Hs in H.
Qed.

(** X16. [build_file_paths] changes nothing and returns two different
    names in the directory of the source video: the first is a video
    ([.mp4]) and the second an audio file ([.wav]) for
    [rename_files_with_vrn]; neither is the source video itself, whatever
    its name, and neither is the name of a frame capture of the run. *)
Theorem trimmed_files_have_fresh_names (video : Path) (w : world) :
  ∃ trimmed_video trimmed_audio,
    build_file_paths video w = (Ok (trimmed_video, trimmed_audio), w)
    ∧ parent trimmed_video = parent video
    ∧ parent trimmed_audio = parent video
    ∧ kind_of trimmed_video = TrimmedVideo
    ∧ kind_of trimmed_audio = TrimmedAudio
    ∧ trimmed_video ≠ trimmed_audio
    ∧ trimmed_video ≠ video ∧ trimmed_audio ≠ video
    ∧ ∀ i, frame_capture_path (temp_uuid (processor w)) video i ≠ trimmed_video
           ∧ frame_capture_path (temp_uuid (processor w)) video i ≠ trimmed_audio.
Proof.
  eexists _, _. split; [reflexivity|].
  set (uuid := temp_uuid (processor w)).
  pose proof (trimmed_video_suffix (parent video) (stem video) uuid) as Hv.
  pose proof (trimmed_audio_suffix (parent video) (stem video) uuid) as Ha.
  assert (kind_of (mkPath (parent video) (stem video +:+ "_" +:+ uuid +:+ "_trim.mp4"))
          = TrimmedVideo) as Kv by (by apply kind_of_video).
  assert (kind_of (mkPath (parent video)
                          (stem video +:+ "_" +:+ uuid +:+ "_trim_audio.wav"))
          = TrimmedAudio) as Ka.
  { apply kind_of_audio; rewrite Ha; [done|done|]. unfold audio_suffixes.
    by left. }
  split_and!; [done|done|done|done| | | |].
  - intros H. rewrite H in Kv. by rewrite Kv in Ka.
  - intros H. apply (trimmed_name_is_new video (uuid +:+ "_trim.mp4")).
    rewrite <-H at 1. done.
  - intros H. apply (trimmed_name_is_new video (uuid +:+ "_trim_audio.wav")).
    rewrite <-H at 1. done.
  - intros i.
    pose proof (kind_of_frame _ (frame_capture_is_frame uuid video i)) as Kf.
    split; intros H; rewrite H in Kf; [by rewrite Kf in Kv|by rewrite Kf in Ka].
Qed.

End NamingFacts.

(** ** Cleanup after a failure *)

Module CleanupMore.

Import IO Tracker Transcoder Naming CleanupFacts CaptureFacts NamingFacts.

(** X17. A failed capture is undone by [cleanup]: when a run that has
    tracked nothing yet fails at some capture, and the captures made before
    can be removed, then [cleanup] of the video's directory without
    prompting returns and leaves on disk exactly the files that were there
    before the run, less those that a capture has overwritten; the source
    video is among them unless its own name is that of a frame capture. *)
Theorem failed_capture_is_rolled_back
    run (done rest : list Qc) (ts : Qc) stderr video w :
  video ∈ files w →
  created_files (processor w) = [] →
  (∀ k t, done !! k = Some t →
          run (capture_command (temp_uuid (processor w)) video (S k) t)
          = Completed) →
  run (capture_command (temp_uuid (processor w)) video (S (length done)) ts)
  = Failed stderr →
  (∀ i, frame_capture_path (temp_uuid (processor w)) video i ∉ locked w) →
  let captures :=
    frame_capture_paths (temp_uuid (processor w)) video 1 (length done) in
  let w1 := snd (create_frame_captures run (done ++ ts :: rest) video w) in
  let tidy := cleanup (parent video) (created_files (processor w1)) false w1 in
  fst tidy = Ok ()
  ∧ files (snd tidy) = files w ∖ list_to_set captures
  ∧ (suffix video ≠ ".jpg" → video ∈ files (snd tidy)).
Proof.
  intros Hv Hnew Hrun Hfail Hlock captures w1 tidy.
  destruct (capture_loop_prefix run video done (ts :: rest) 1 w)
    as (w0 & Heq & Hf & Hl & Hs & Hlg & Hu & Hc); [done|].
  rewrite Hnew, app_nil_l in Hc. fold captures in Hf, Hc.
  assert (files w1 = list_to_set captures ∪ files w
          ∧ locked w1 = locked w
          ∧ created_files (processor w1) = captures) as (Hf1 & Hl1 & Hc1).
  { subst w1. unfold create_frame_captures, mbind, io_bind, bind, path_exists.
    rewrite bool_decide_true by done. cbn [negb]. rewrite Heq.
    cbn [capture_loop Nat.add]. unfold mbind, io_bind, bind. cbn beta iota.
    rewrite Hu. unfold capture_command, frame_capture_path in Hfail.
    cbn [parent] in Hfail |- *. rewrite Hfail.
    destruct stderr as [text|]; done. }
  subst tidy. rewrite Hc1.
  destruct (cleanup_unconditional (parent video) captures w1)
    as (Hok & written & _ & Hgone).
  pose proof (cleanup_frame (parent video) captures false w1)
    as (_ & Hsub & Hrm & _).
  set (w2 := snd (cleanup (parent video) captures false w1)) in *.
  assert (∀ p, p ∈ captures → p ∉ files w2) as Hcap.
  { intros p Hp. apply (Hgone p Hp).
    - rewrite Hf1. by apply elem_of_union_l, elem_of_list_to_set.
    - apply elem_of_frame_capture_paths in Hp as (j & _ & ->). done.
    - apply elem_of_frame_capture_paths in Hp as (j & _ & ->).
      rewrite Hl1. apply Hlock. }
  assert (files w2 = files w ∖ list_to_set captures) as Hfiles.
  { apply set_eq. intros p.
    rewrite elem_of_difference, elem_of_list_to_set. split.
    - intros Hp. split.
      + pose proof (Hsub p Hp) as Hp1. rewrite Hf1 in Hp1.
        apply elem_of_union in Hp1 as [Hp1%elem_of_list_to_set|Hp1]; [|done].
        by destruct (Hcap p Hp1).
      + intros Hin. by apply (Hcap p Hin).
    - intros [Hp Hn]. destruct (decide (p ∈ files w2)) as [|Hout]; [done|].
      destruct (Hrm p); [|done|done].
      rewrite Hf1. by apply elem_of_union_r. }
  split_and!; [done|done|].
  intros Hjpg. rewrite Hfiles. apply elem_of_difference. split; [done|].
  rewrite elem_of_list_to_set.
  intros (j & _ & Hj)%elem_of_frame_capture_paths.
  apply Hjpg. rewrite Hj. apply frame_capture_is_frame.
Qed.

Lemma failed_capture_is_rolled_back_witness :
  let video := mkPath "/v" "clip.mp4" in
  let w := mkWorld {[video]} ∅ [] [] (mkVideoProcessor "0f3a" []) in
  let run c :=
    if bool_decide (cmd_output c = frame_capture_path "0f3a" video 2)
    then Failed (Some "no space left") else Completed in
  let w1 := snd (create_frame_captures run ([Qc_of_Z 7] ++ Qc_of_Z 9 :: [])
                                       video w) in
  let tidy := cleanup (parent video) (created_files (processor w1)) false w1 in
  fst tidy = Ok ()
  ∧ files (snd tidy) = files w ∖ list_to_set (frame_capture_paths "0f3a" video 1 1)
  ∧ (suffix video ≠ ".jpg" → video ∈ files (snd tidy)).
Proof.
  intros video w run.
  apply (failed_capture_is_rolled_back run [Qc_of_Z 7] [] (Qc_of_Z 9)
           (Some "no space left") video w).
  - apply (bool_decide_unpack _). by vm_compute.
  - done.
  - by intros [|[|k]] t [= <-].
  - done.
  - intros i. apply not_elem_of_empty.
Defined.

(** X18. With prompting and no input left, [cleanup] deletes nothing: it
    leaves the files, the log and the tracked list as they are, and it
    raises [EOFError] as soon as it reaches a tracked file that exists in
    the scope directory; it returns normally only when there is no such
    file. *)
Theorem cleanup_without_input_deletes_nothing directory tracked w :
  stdin w = [] →
  snd (cleanup directory tracked true w) = w
  ∧ fst (cleanup directory tracked true w)
    = if bool_decide (Exists (λ p, p ∈ files w ∧ parent p = directory) tracked)
      then Raise EOFError "EOF when reading a line"
      else Ok ().
Proof.
  intros Hin. induction tracked as [|x rest IH].
  { split; [done|]. rewrite bool_decide_false; [done|]. by intros ?%Exists_nil. }
  rewrite cleanup_cons. destruct IH as [IH1 IH2].
  destruct (decide (x ∈ files w ∧ parent x = directory)) as [Hscope|Hscope].
  - rewrite (bool_decide_true (x ∈ files w ∧ _)) by done.
    rewrite Hin. split; [done|]. rewrite bool_decide_true; [done|].
    by apply Exists_cons_hd.
  - rewrite (bool_decide_false (x ∈ files w ∧ _)) by done.
    split; [done|]. rewrite IH2.
    destruct (decide (Exists (λ p, p ∈ files w ∧ parent p = directory) rest))
      as [Hex|Hex].
    + rewrite !bool_decide_true; [done| |done]. by apply Exists_cons_tl.
    + rewrite !bool_decide_false; [done| |done].
      intros [?|?]%Exists_cons; done.
Qed.

Lemma cleanup_without_input_deletes_nothing_witness :
  let p := mkPath "/v" "0f3a_1.jpg" in
  let w := mkWorld {[p]} ∅ [] [] (mkVideoProcessor "0f3a" [p]) in
  snd (cleanup "/v" [p] true w) = w
  ∧ fst (cleanup "/v" [p] true w)
    = if bool_decide (Exists (λ q, q ∈ files w ∧ parent q = "/v") [p])
      then Raise EOFError "EOF when reading a line"
      else Ok ().
Proof.
  intros p w. apply (cleanup_without_input_deletes_nothing "/v" [p] w). done.
Defined.



End CleanupMore.

(** ** Moving files to the archive *)

Module MoveFacts.

Import IO Tracker FileManagement.

(** What [shutil.move] does to a file: it moves it, or raises [OSError]
    with the source still in place and at most a copy at the target. *)
Lemma shutil_move_outcome src dst w :
  if bool_decide (src ∈ files w ∧ src ∉ locked w)
  then shutil_move src dst w
       = (Ok (), set_files ({[dst]} ∪ files w ∖ {[src]}) w)
  else ∃ msg w', shutil_move src dst w = (Raise OSError msg, w')
                 ∧ locked w' = locked w ∧ logs w' = logs w
                 ∧ stdin w' = stdin w ∧ processor w' = processor w
                 ∧ (files w' = files w ∨ files w' = {[dst]} ∪ files w).
Proof.
  unfold shutil_move, try_except, rename, copy2, unlink, mbind, io_bind, bind.
  destruct (decide (src ∈ files w)) as [Hin|Hin];
    [destruct (decide (src ∈ locked w)) as [Hl|Hl]|].
  - rewrite (bool_decide_false (_ ∧ _)) by naive_solver.
    rewrite (bool_decide_true (src ∈ files w)), (bool_decide_true (src ∈ locked w))
      by done.
    rewrite (bool_decide_true (OSError = OSError)) by done. cbv beta.
    rewrite (bool_decide_true (src ∈ files w)) by done.
    destruct (decide (src = dst)) as [Heq|Hne].
    + rewrite (bool_decide_true (src = dst)) by done.
      eexists _, _. split_and!; [reflexivity|done..|by left].
    + rewrite (bool_decide_false (src = dst)) by done.
      cbn [set_files files locked].
      rewrite (bool_decide_true (src ∈ {[dst]} ∪ files w))
        by (by apply elem_of_union_r).
      rewrite (bool_decide_true (src ∈ locked w)) by done.
      eexists _, _. split_and!; [reflexivity|done..|by right].
  - rewrite (bool_decide_true (_ ∧ _)) by done.
    by rewrite (bool_decide_true (src ∈ files w)),
      (bool_decide_false (src ∈ locked w)) by done.
  - rewrite (bool_decide_false (_ ∧ _)) by naive_solver.
    rewrite (bool_decide_false (src ∈ files w)) by done.
    rewrite (bool_decide_true (OSError = OSError)) by done. cbv beta.
    rewrite (bool_decide_false (src ∈ files w)) by done.
    eexists _, _. split_and!; [reflexivity|done..|by left].
Qed.

(** One turn of the loop: the file is moved and the move is logged, or
    [FileManagementError] is raised. *)
Lemma move_one_outcome src dst w :
  if bool_decide (src ∈ files w ∧ src ∉ locked w)
  then move_one src dst false w
       = (Ok (), set_logs (logs w ++ [(DEBUG, ErrorText ("Moved " +:+ str src
                                                           +:+ " to " +:+ dst))])
                          (set_files ({[mkPath dst (name src)]} ∪ files w ∖ {[src]})
                                     w))
  else ∃ msg w', move_one src dst false w = (Raise FileManagementError msg, w')
                 ∧ (files w' = files w
                    ∨ files w' = {[mkPath dst (name src)]} ∪ files w).
Proof.
  pose proof (shutil_move_outcome src (mkPath dst (name src)) w) as H.
  unfold move_one, try_except_any, mbind, io_bind, bind.
  case_bool_decide.
  - by rewrite H.
  - destruct H as (msg & w' & -> & _ & _ & _ & _ & Hf). eauto.
Qed.

Lemma move_one_stringify src dst w :
  ∃ msg w', move_one src dst true w = (Raise FileManagementError msg, w')
            ∧ files w' = files w.
Proof. unfold move_one, try_except_any, mbind, io_bind, bind. simpl. eauto. Qed.

Lemma move_loop_cons src rest dst stringify w :
  move_loop (src :: rest) dst stringify w
  = match move_one src dst stringify w with
    | (Ok _, w1) => move_loop rest dst stringify w1
    | (Raise e msg, w1) => (Raise e msg, w1)
    end.
Proof. done. Qed.

Lemma move_loop_raises src_files dst stringify w :
  raised (fst (move_loop src_files dst stringify w)) = None
  ∨ raised (fst (move_loop src_files dst stringify w)) = Some FileManagementError.
Proof.
  revert w. induction src_files as [|p rest IH]; intros w; [by left|].
  rewrite move_loop_cons. destruct stringify.
  - destruct (move_one_stringify p dst w) as (msg & w' & -> & _). by right.
  - pose proof (move_one_outcome p dst w) as H. case_bool_decide.
    + rewrite H. apply IH.
    + destruct H as (msg & w' & -> & _). by right.
Qed.

Lemma check_and_create_outcome os_mkdir dst w :
  match os_mkdir dst w with
  | None => check_and_create_subdirectory os_mkdir dst w = (Ok (), w)
  | Some e =>
      check_and_create_subdirectory os_mkdir dst w
      = (Raise FileManagementError ("Failed to create subdirectory " +:+ dst),
         set_logs (logs w ++ [(ERROR, ErrorText ("Failed to create subdirectory "
                                                   +:+ dst +:+ ": " +:+ e))]) w)
  end.
Proof.
  unfold check_and_create_subdirectory, try_except, mkdir.
  destruct (os_mkdir dst w); done.
Qed.



(** What a loop that returns has done. *)
Lemma move_loop_returns src_files dst :
  ∀ w w',
    move_loop src_files dst false w = (Ok (), w') →
    (∀ p, p ∈ src_files → mkPath dst (name p) ∈ files w')
    ∧ (∀ p, p ∈ src_files → parent p ≠ dst → p ∉ files w')
    ∧ (∀ q, parent q ≠ dst → q ∈ files w' → q ∈ files w)
    ∧ (∀ q, q ∉ src_files → q ∈ files w → q ∈ files w')
    ∧ (∀ q, parent q = dst → q ∈ files w → q ∈ files w').
Proof.
  induction src_files as [|p rest IH]; intros w w' Hrun.
  { injection Hrun as <-. split_and!; try done; by intros ? ?%elem_of_nil. }
  rewrite move_loop_cons in Hrun.
  pose proof (move_one_outcome p dst w) as H. case_bool_decide as Hp.
  2:{ destruct H as (msg & w1 & Heq & _). by rewrite Heq in Hrun. }
  rewrite H in Hrun. clear H.
  set (w1 := set_logs _ _) in Hrun.
  assert (files w1 = {[mkPath dst (name p)]} ∪ files w ∖ {[p]}) as Hf1 by done.
  destruct (IH w1 w' Hrun) as (I1 & I2 & I3 & I4 & I5). split_and!.
  - intros q [->|Hq]%elem_of_cons; [|by apply I1].
    apply I5; [done|]. rewrite Hf1. apply elem_of_union_l. by apply elem_of_singleton.
  - intros q Hq Hd Hin. apply elem_of_cons in Hq as [->|Hq]; [|by apply (I2 q)].
    apply I3 in Hin; [|done]. rewrite Hf1 in Hin.
    apply elem_of_union in Hin as [Hin%elem_of_singleton|Hin].
    + apply Hd. by rewrite Hin.
    + apply elem_of_difference in Hin as [_ Hin]. apply Hin.
      by apply elem_of_singleton.
  - intros q Hd Hin. apply I3 in Hin; [|done]. rewrite Hf1 in Hin.
    apply elem_of_union in Hin as [Hin%elem_of_singleton|Hin].
    + destruct Hd. by rewrite Hin.
    + by apply elem_of_difference in Hin as [Hin _].
  - intros q Hq Hin. apply not_elem_of_cons in Hq as [Hne Hq].
    apply I4; [done|]. rewrite Hf1. apply elem_of_union_r, elem_of_difference.
    split; [done|]. by rewrite elem_of_singleton.
  - intros q Hd Hin. apply I5; [done|]. rewrite Hf1.
    destruct (decide (q = p)) as [->|Hne].
    + apply elem_of_union_l, elem_of_singleton. destruct p. simpl in Hd. by subst.
    + apply elem_of_union_r, elem_of_difference. split; [done|].
      by rewrite elem_of_singleton.
Qed.

(** X22. Whenever [move_files] returns, every file of the list is in the
    archive directory under its own name and none is left at a place
    outside that directory; no file outside the directory has appeared, and
    the files that were not to be moved, and those already in the directory,
    are still there. *)
Theorem moved_files_are_in_the_archive
    os_mkdir (src_files : list Path) (dst : string) w w' :
  move_files os_mkdir src_files dst false w = (Ok (), w') →
  (∀ p, p ∈ src_files → mkPath dst (name p) ∈ files w')
  ∧ (∀ p, p ∈ src_files → parent p ≠ dst → p ∉ files w')
  ∧ (∀ q, parent q ≠ dst → q ∈ files w' → q ∈ files w)
  ∧ (∀ q, q ∉ src_files → q ∈ files w → q ∈ files w')
  ∧ (∀ q, parent q = dst → q ∈ files w → q ∈ files w').
Proof.
  unfold move_files, mbind, io_bind, bind.
  pose proof (check_and_create_outcome os_mkdir dst w) as H.
  destruct (os_mkdir dst w); rewrite H; [done|].
  apply move_loop_returns.
Qed.

Lemma moved_files_are_in_the_archive_witness :
  let a := mkPath "/v" "AB12CDE.mp4" in
  let b := mkPath "/v" "AB12CDE_frame_1.jpg" in
  let w := mkWorld {[a; b]} ∅ [] [] (mkVideoProcessor "0f3a" [a; b]) in
  let w' := snd (move_files (λ _ _, None) [a; b] "/archive/77" false w) in
  (∀ p, p ∈ [a; b] → mkPath "/archive/77" (name p) ∈ files w')
  ∧ (∀ p, p ∈ [a; b] → parent p ≠ "/archive/77" → p ∉ files w')
  ∧ (∀ q, parent q ≠ "/archive/77" → q ∈ files w' → q ∈ files w)
  ∧ (∀ q, q ∉ [a; b] → q ∈ files w → q ∈ files w')
  ∧ (∀ q, parent q = "/archive/77" → q ∈ files w → q ∈ files w').
Proof.
  intros a b w w'.
  apply (moved_files_are_in_the_archive (λ _ _, None) [a; b] "/archive/77" w w').
  by vm_compute.
Defined.

End MoveFacts.

(** ** Renaming: what can go wrong *)

Module RenameMore.

Import IO Tracker RenameFacts.

Lemma attempt_rename_raises p q w :
  raised (fst (attempt_rename p q w)) = None
  ∨ raised (fst (attempt_rename p q w)) = Some FileManagementError.
Proof.
  destruct (decide (p ∈ files w)) as [Hin|Hin];
    [destruct (decide (p ∈ locked w)) as [Hl|Hl]|].
  - unfold attempt_rename, try_except, rename, logging, mbind, io_bind, bind.
    rewrite (bool_decide_true (p ∈ files w)), (bool_decide_true (p ∈ locked w))
      by done.
    by right.
  - rewrite attempt_rename_ok by done. by left.
  - unfold attempt_rename, try_except, rename, logging, mbind, io_bind, bind.
    rewrite (bool_decide_false (p ∈ files w)) by done. by right.
Qed.

Lemma attempt_delete_audio_raises p w :
  raised (fst (attempt_delete_audio p w)) = None
  ∨ raised (fst (attempt_delete_audio p w)) = Some FileManagementError.
Proof.
  destruct (decide (p ∈ files w)) as [Hin|Hin];
    [destruct (decide (p ∈ locked w)) as [Hl|Hl]|].
  - unfold attempt_delete_audio, try_except, unlink, logging, mbind, io_bind, bind.
    rewrite (bool_decide_true (p ∈ files w)), (bool_decide_true (p ∈ locked w))
      by done.
    by right.
  - rewrite attempt_delete_audio_ok by done. by left.
  - unfold attempt_delete_audio, try_except, unlink, logging, mbind, io_bind, bind.
    rewrite (bool_decide_false (p ∈ files w)) by done. by right.
Qed.

(** A new name made of the registration number and an extension is rejected
    exactly when the registration number has a path separator. *)
Lemma with_name_vrn p vrn mid ext :
  suffix p = ext → is_extension ext → has_char "/" mid = false →
  match with_name p (vrn +:+ mid +:+ ext) with
  | Ok q => has_char "/" vrn = false ∧ q = mkPath (parent p) (vrn +:+ mid +:+ ext)
  | Raise e _ => has_char "/" vrn = true ∧ e = ValueError
  end.
Proof.
  intros Hs Hext Hmid. destruct (has_char "/" vrn) eqn:Hv.
  - unfold with_name. case_bool_decide; [done|].
    rewrite !has_char_app, Hv. simpl. by rewrite orb_true_r.
  - rewrite <-append_assoc, with_name_ok; [done|done|done|].
    by rewrite has_char_app, Hv, Hmid.
Qed.

Lemma rename_loop_raises vrn tracked :
  ∀ idx acc w,
    let r := fst (rename_loop vrn tracked idx acc w) in
    (raised r = None ∨ raised r = Some FileManagementError
     ∨ raised r = Some ValueError)
    ∧ (has_char "/" vrn = false → raised r ≠ Some ValueError).
Proof.
  induction tracked as [|p rest IH]; intros idx acc w; cbv zeta.
  { split; [by left|done]. }
  rewrite rename_loop_cons.
  assert (∀ mid idx' ,
            suffix p = ".mp4" ∨ suffix p = ".jpg" → has_char "/" mid = false →
            let r := fst ((new_filename ← of_result (with_name p (vrn +:+ mid +:+ suffix p));
                           attempt_rename p new_filename;;
                           rename_loop vrn rest idx' (acc ++ [new_filename])) w) in
            (raised r = None ∨ raised r = Some FileManagementError
             ∨ raised r = Some ValueError)
            ∧ (has_char "/" vrn = false → raised r ≠ Some ValueError)) as Hstep.
  { intros mid idx' Hsfx Hmid. cbv zeta.
    assert (is_extension (suffix p)) as Hext
      by (destruct Hsfx as [->| ->]; [apply mp4_is_extension|apply jpg_is_extension]).
    pose proof (with_name_vrn p vrn mid (suffix p) eq_refl Hext Hmid) as Hwn.
    unfold mbind, io_bind, bind, of_result.
    destruct (with_name p _) as [q|e msg].
    - destruct Hwn as [Hv ->].
      pose proof (attempt_rename_raises p (mkPath (parent p) (vrn +:+ mid +:+ suffix p)) w)
        as Har.
      destruct (attempt_rename p _ w) as [[[]|e msg] w1]; simpl in Har |- *.
      + apply IH.
      + destruct Har as [?|Har]; [done|]. injection Har as ->. split; [auto|done].
    - destruct Hwn as [Hv ->]. simpl. split; [auto|]. by rewrite Hv. }
  case_bool_decide as Hmp4.
  { assert (vrn +:+ suffix p = vrn +:+ "" +:+ suffix p) as -> by done.
    apply Hstep; [by left|done]. }
  case_bool_decide as Hjpg.
  { assert (vrn +:+ "_frame_" +:+ pretty idx +:+ suffix p
            = vrn +:+ ("_frame_" +:+ pretty idx) +:+ suffix p) as ->
      by (by rewrite append_assoc).
    apply Hstep; [by right|].
    rewrite has_char_app, pretty_nat_no_sep. done. }
  case_bool_decide as Haudio; [|apply IH].
  unfold mbind, io_bind, bind.
  pose proof (attempt_delete_audio_raises p w) as Had.
  destruct (attempt_delete_audio p w) as [[[]|e msg] w1]; simpl in Had |- *.
  - apply IH.
  - destruct Had as [?|Had]; [done|]. injection Had as ->. split; [auto|done].
Qed.

(** With a separator in the registration number the new name of a video or
    frame capture at the head of the list is rejected at once. *)
Lemma separator_is_rejected vrn p rest w :
  has_char "/" vrn = true → suffix p = ".mp4" ∨ suffix p = ".jpg" →
  raised (fst (rename_files_with_vrn (p :: rest) vrn w)) = Some ValueError
  ∧ snd (rename_files_with_vrn (p :: rest) vrn w) = w.
Proof.
  intros Hv Hsfx. unfold rename_files_with_vrn. rewrite rename_loop_cons.
  assert (is_extension (suffix p)) as Hext
    by (destruct Hsfx as [->| ->]; [apply mp4_is_extension|apply jpg_is_extension]).
  assert (∀ mid, has_char "/" mid = false →
            ∃ msg, with_name p (vrn +:+ mid +:+ suffix p) = Raise ValueError msg)
    as Hwn.
  { intros mid Hmid.
    pose proof (with_name_vrn p vrn mid (suffix p) eq_refl Hext Hmid) as Hwn.
    destruct (with_name p _) as [q|e msg].
    - destruct Hwn as [Hv' _]. by rewrite Hv in Hv'.
    - destruct Hwn as [_ ->]. by eexists. }
  destruct Hsfx as [Hs|Hs].
  - rewrite bool_decide_true by done.
    destruct (Hwn EmptyString eq_refl) as [msg Hm].
    change (vrn +:+ "" +:+ suffix p) with (vrn +:+ suffix p) in Hm.
    unfold mbind, io_bind, bind, of_result. by rewrite Hm.
  - rewrite bool_decide_false by (by rewrite Hs).
    rewrite bool_decide_true by done.
    destruct (Hwn ("_frame_" +:+ pretty 1%nat)) as [msg Hm].
    { by rewrite has_char_app, pretty_nat_no_sep. }
    rewrite append_assoc in Hm.
    unfold mbind, io_bind, bind, of_result. by rewrite Hm.
Qed.


End RenameMore.

(** ** The manual submission step *)

Module SubmissionFacts.

Import IO Tracker Submission CleanupFacts.

Lemma yes_is_not_abort (user_input : string) :
  is_yes user_input = true → is_abort user_input = false.
Proof.
  unfold is_yes, is_abort. intros H%bool_decide_eq_true.
  apply bool_decide_eq_false. intros Ha.
  apply elem_of_cons in H as [->|H]; [|apply elem_of_cons in H as [->|H]].
  - apply (bool_decide_pack _) in Ha. by vm_compute in Ha.
  - apply (bool_decide_pack _) in Ha. by vm_compute in Ha.
  - by apply elem_of_nil in H.
Qed.

Lemma submission_step fuel dd vf cf vrn line more w :
  stdin w = line :: more →
  handle_manual_submission (S fuel) dd vf cf vrn w
  = if is_abort (normalised line)
    then Some (abort_steps vf cf (set_stdin more w))
    else if is_yes (normalised line) then Some (Ok (), set_stdin more w)
    else handle_manual_submission fuel dd vf cf vrn (set_stdin more w).
Proof. intros Hin. simpl. unfold input. by rewrite Hin. Qed.

Lemma submission_eof fuel dd vf cf vrn w :
  stdin w = [] →
  handle_manual_submission (S fuel) dd vf cf vrn w
  = Some (Raise EOFError "EOF when reading a line", w).
Proof. intros Hin. simpl. unfold input. by rewrite Hin. Qed.

(** Undecided lines are read and passed over. *)
Lemma submission_skips dd vf cf vrn skipped :
  ∀ fuel rest w,
    stdin w = skipped ++ rest →
    Forall undecided skipped →
    handle_manual_submission (length skipped + fuel) dd vf cf vrn w
    = handle_manual_submission fuel dd vf cf vrn (set_stdin rest w).
Proof.
  induction skipped as [|line skipped IH]; intros fuel rest w Hin Hsk.
  { simpl in Hin |- *. destruct w. simpl in Hin. by subst. }
  apply Forall_cons in Hsk as [[Ha Hy] Hsk].
  change (length (line :: skipped) + fuel)%nat with (S (length skipped + fuel)).
  rewrite (submission_step _ _ _ _ _ line (skipped ++ rest)) by done.
  rewrite Ha, Hy. by rewrite (IH fuel rest (set_stdin (skipped ++ rest) w)).
Qed.



Lemma cleanup_raises_only_EOFError directory tracked prompt w :
  raised (fst (cleanup directory tracked prompt w)) = None
  ∨ raised (fst (cleanup directory tracked prompt w)) = Some EOFError.
Proof.
  revert w. induction tracked as [|x rest IH]; intros w; [by left|].
  rewrite cleanup_cons. case_bool_decide; [|apply IH].
  destruct prompt; [|apply IH].
  destruct (stdin w); [by right|].
  destruct (affirmative _); apply IH.
Qed.

(** X25. Given more turns than there are lines of input, the loop of
    [handle_manual_submission] ends: it returns, or it raises
    [UserAbortException] or, when the input runs out, [EOFError], and
    nothing else.  It creates no file; what it removes is removed by the
    cleanup of an abort, and so is a tracked file of the video folder; when
    it returns normally no file has been touched and nothing was logged. *)
Theorem submission_ends (fuel : nat) dd vf cf vrn (w : world) :
  (length (stdin w) < fuel)%nat →
  ∃ r w',
    handle_manual_submission fuel dd vf cf vrn w = Some (r, w')
    ∧ (raised r = None ∨ raised r = Some UserAbortException
       ∨ raised r = Some EOFError)
    ∧ files w' ⊆ files w
    ∧ (∀ p, p ∈ files w → p ∉ files w' → p ∈ cf ∧ parent p = vf)
    ∧ (raised r = None → files w' = files w ∧ logs w' = logs w).
Proof.
  revert w. induction fuel as [|fuel IH]; intros w Hfuel; [lia|].
  destruct (stdin w) as [|line more] eqn:Hin.
  { rewrite submission_eof by done. eexists _, _.
    split_and!; [done|auto|done|done|done]. }
  rewrite (submission_step _ _ _ _ _ line more) by done.
  destruct (is_abort _) eqn:Ha; [|destruct (is_yes _) eqn:Hy].
  - unfold abort_steps, mbind, io_bind, bind, logging. cbn [fst snd].
    set (w1 := set_logs _ _).
    pose proof (cleanup_frame vf cf true w1) as (_ & Hsub & Hrm & _).
    pose proof (cleanup_raises_only_EOFError vf cf true w1) as Hr.
    destruct (cleanup vf cf true w1) as [[[]|e msg] w2]; simpl in *.
    + eexists _, _. split_and!; [done|auto|done|done|done].
    + destruct Hr as [?|[= ->]]; [done|].
      eexists _, _. split_and!; [done|auto|done|done|done].
  - eexists _, _. split_and!; [done|auto|done|done|done].
  - destruct (IH (set_stdin more w)) as (r & w' & Heq & H1 & H2 & H3 & H4).
    { simpl in Hfuel |- *. lia. }
    exists r, w'. done.
Qed.

Lemma submission_ends_witness :
  let w := mkWorld ∅ ∅ ["maybe"; "abort"] [] (mkVideoProcessor "0f3a" []) in
  ∃ r w',
    handle_manual_submission 3 "/downloads" "/v" [] "AB12CDE" w = Some (r, w')
    ∧ (raised r = None ∨ raised r = Some UserAbortException
       ∨ raised r = Some EOFError)
    ∧ files w' ⊆ files w
    ∧ (∀ p, p ∈ files w → p ∉ files w' → p ∈ [] ∧ parent p = "/v")
    ∧ (raised r = None → files w' = files w ∧ logs w' = logs w).
Proof.
  intros w. apply (submission_ends 3 "/downloads" "/v" [] "AB12CDE" w).
  simpl. lia.
Defined.

End SubmissionFacts.

(** ** The registration number *)

Module VrnFacts.

Import IO Tracker FileManagement Submission Vrn RenameFacts.

(** Facts about single characters, by cases on the eight bits. *)
Ltac by_character c := destruct c as [[] [] [] [] [] [] [] []]; by vm_compute.

Lemma upper_char_digit c : is_digit_char (upper_char c) = is_digit_char c.
Proof. by_character c. Qed.

Lemma upper_char_alpha c : is_alpha_char (upper_char c) = is_alpha_char c.
Proof. by_character c. Qed.

Lemma upper_char_idemp c : upper_char (upper_char c) = upper_char c.
Proof. by_character c. Qed.

Lemma upper_char_space c : bool_decide (" "%char = upper_char c) = bool_decide (" "%char = c).
Proof. by_character c. Qed.

Lemma upper_char_sep c : bool_decide ("/"%char = upper_char c) = bool_decide ("/"%char = c).
Proof. by_character c. Qed.

Lemma space_not_digit_alpha_sep c :
  bool_decide (" "%char = c) = true →
  is_digit_char c = false ∧ is_alpha_char c = false ∧ bool_decide ("/"%char = c) = false.
Proof. by_character c. Qed.

Lemma any_char_upper pred s :
  (∀ c, pred (upper_char c) = pred c) → any_char pred (upper s) = any_char pred s.
Proof. intros H. induction s as [|c s IH]; [done|]. simpl. by rewrite H, IH. Qed.

Lemma any_char_remove_spaces pred s :
  (∀ c, bool_decide (" "%char = c) = true → pred c = false) →
  any_char pred (remove_spaces s) = any_char pred s.
Proof.
  intros H. unfold remove_spaces. induction s as [|c s IH]; [done|]. simpl.
  destruct (bool_decide (" "%char = c)) eqn:E.
  - by rewrite (H c E), IH.
  - simpl. by rewrite IH.
Qed.

Lemma has_char_any c s : has_char c s = any_char (λ c', bool_decide (c = c')) s.
Proof. induction s as [|c' s IH]; [done|]. simpl. by rewrite IH. Qed.

Lemma no_space_left s : has_char " " (remove_spaces s) = false.
Proof.
  unfold remove_spaces. induction s as [|c s IH]; [done|]. simpl.
  destruct (bool_decide (" "%char = c)) eqn:E; [done|]. simpl. by rewrite E.
Qed.

Lemma upper_idemp s : upper (upper s) = upper s.
Proof. induction s as [|c s IH]; [done|]. simpl. by rewrite upper_char_idemp, IH. Qed.

(** The shape of an accepted registration number. *)
Lemma accepted_vrn_shape (line : string) :
  any_char is_digit_char line && any_char is_alpha_char line = true →
  let vrn := upper (remove_spaces line) in
  has_char " " vrn = false
  ∧ any_char is_digit_char vrn = true
  ∧ any_char is_alpha_char vrn = true
  ∧ upper vrn = vrn
  ∧ vrn ≠ "FAIL"
  ∧ has_char "/" vrn = has_char "/" line.
Proof.
  intros [Hd Ha]%andb_true_iff. cbv zeta.
  assert (any_char is_digit_char (upper (remove_spaces line)) = true) as Hd'.
  { rewrite any_char_upper by apply upper_char_digit.
    rewrite any_char_remove_spaces; [done|]. intros c Hc.
    by destruct (space_not_digit_alpha_sep c Hc) as (? & ? & ?). }
  split_and!.
  - rewrite has_char_any, any_char_upper by apply upper_char_space.
    rewrite <-has_char_any. apply no_space_left.
  - done.
  - rewrite any_char_upper by apply upper_char_alpha.
    rewrite any_char_remove_spaces; [done|]. intros c Hc.
    by destruct (space_not_digit_alpha_sep c Hc) as (? & ? & ?).
  - apply upper_idemp.
  - intros Heq. rewrite Heq in Hd'. by vm_compute in Hd'.
  - rewrite !has_char_any, any_char_upper by apply upper_char_sep.
    apply any_char_remove_spaces. intros c Hc.
    by destruct (space_not_digit_alpha_sep c Hc) as (? & ? & ?).
Qed.

Lemma request_vrn_step fuel line more w :
  stdin w = line :: more →
  request_vrn (S fuel) w
  = if any_char is_digit_char line && any_char is_alpha_char line
    then Some (Ok (upper (remove_spaces line)), set_stdin more w)
    else request_vrn fuel
           (set_logs (logs w ++ [(ERROR, ErrorText "Invalid VRN format. Please try again.")])
                     (set_stdin more w)).
Proof. intros Hin. simpl. unfold input. by rewrite Hin. Qed.

Lemma request_vrn_eof fuel w :
  stdin w = [] →
  request_vrn (S fuel) w = Some (Raise EOFError "EOF when reading a line", w).
Proof. intros Hin. simpl. unfold input. by rewrite Hin. Qed.

(** Whatever the manual request ends with. *)
Lemma request_vrn_outcome fuel :
  ∀ w r w',
    request_vrn fuel w = Some (r, w') →
    files w' = files w ∧ processor w' = processor w
    ∧ match r with
      | Ok vrn =>
          ∃ line, line ∈ stdin w
                  ∧ any_char is_digit_char line && any_char is_alpha_char line = true
                  ∧ vrn = upper (remove_spaces line)
      | Raise e _ => e = EOFError
      end.
Proof.
  induction fuel as [|fuel IH]; intros w r w' Hrun; [done|].
  destruct (stdin w) as [|line more] eqn:Hin.
  { rewrite request_vrn_eof in Hrun by done. by injection Hrun as <- <-. }
  rewrite (request_vrn_step _ line more) in Hrun by done.
  destruct (_ && _) eqn:Hok.
  - injection Hrun as <- <-. split_and!; [done|done|].
    exists line. split_and!; [by left|done|done].
  - apply IH in Hrun as (Hf & Hp & Hr). split_and!; [done|done|].
    destruct r as [vrn|e msg]; [|done].
    destruct Hr as (l & Hl & ?). exists l. split; [by right|done].
Qed.

Lemma request_vrn_ends fuel :
  ∀ w, (length (stdin w) < fuel)%nat → ∃ r w', request_vrn fuel w = Some (r, w').
Proof.
  induction fuel as [|fuel IH]; intros w Hfuel; [lia|].
  destruct (stdin w) as [|line more] eqn:Hin.
  { rewrite request_vrn_eof by done. by eexists _, _. }
  rewrite (request_vrn_step _ line more) by done.
  destruct (_ && _); [by eexists _, _|].
  apply IH. simpl in Hfuel |- *. lia.
Qed.





(** The [try] block never raises; it hands back the AI's answer only when
    that answer is a text other than ["FAIL"] and the user confirms it. *)
Lemma confirm_ai_vrn_outcome ai transcript w :
  ∃ answer w',
    confirm_ai_vrn ai transcript w = (Ok answer, w')
    ∧ files w' = files w ∧ processor w' = processor w
    ∧ (length (stdin w') ≤ length (stdin w))%nat
    ∧ (∀ line, line ∈ stdin w' → line ∈ stdin w)
    ∧ ∀ vrn, answer = Some vrn →
        ∃ text reply more,
          fst (ai transcript) = AiText text ∧ vrn = remove_spaces text
          ∧ vrn ≠ "FAIL" ∧ stdin w = reply :: more
          ∧ affirmative (lower (strip reply)) = true.
Proof.
  unfold confirm_ai_vrn, try_except_any, mbind, io_bind, bind.
  destruct (ai transcript) as [response written]. cbn [fst].
  destruct response as [text| |err].
  - case_bool_decide as Hfail.
    + unfold input. cbn [set_logs stdin].
      destruct (stdin w) as [|reply more] eqn:Hin.
      * eexists _, _. split; [reflexivity|]. cbn. rewrite ?Hin.
        split_and!; [done|done|done|done|]. by intros ? [=].
      * destruct (affirmative (lower (strip reply))) eqn:Haff.
        -- eexists _, _. split; [reflexivity|]. cbn. rewrite ?Hin.
           split_and!; [done|done|simpl; lia|by intros ??; right|].
           intros vrn [= <-]. by exists text, reply, more.
        -- eexists _, _. split; [reflexivity|]. cbn. rewrite ?Hin.
           split_and!; [done|done|simpl; lia|by intros ??; right|]. by intros ? [=].
    + eexists _, _. split; [reflexivity|]. cbn.
      split_and!; [done|done|done|done|]. by intros ? [=].
  - eexists _, _. split; [reflexivity|]. cbn.
    split_and!; [done|done|done|done|]. by intros ? [=].
  - eexists _, _. split; [reflexivity|]. cbn.
    split_and!; [done|done|done|done|]. by intros ? [=].
Qed.


End VrnFacts.

(** ** The DVLA enquiry *)

Module DvlaFacts.

Import IO Dvla.

Lemma enquiry_disabled_step post key use_APIs attempt w :
  ¬ enquiry_enabled key use_APIs →
  get_vehicle_details_from_dvla post key use_APIs attempt w
  = (Ok None, set_logs (logs w ++ [skipped_record]) w).
Proof.
  intros Hoff. unfold get_vehicle_details_from_dvla.
  assert (bool_decide (key = None ∨ key = Some EmptyString) || negb use_APIs = true)
    as ->; [|done].
  unfold enquiry_enabled in Hoff. destruct use_APIs; [|by rewrite orb_true_r].
  rewrite orb_false_r. apply bool_decide_eq_true.
  destruct key as [[|c k]|]; [by right| |by left].
  destruct Hoff. done.
Qed.

Lemma enquiry_enabled_step post key use_APIs attempt w :
  enquiry_enabled key use_APIs →
  get_vehicle_details_from_dvla post key use_APIs attempt w
  = (Ok (Some (post attempt)), w).
Proof.
  intros (H1 & H2 & ->). unfold get_vehicle_details_from_dvla.
  rewrite bool_decide_false by naive_solver. done.
Qed.

Lemma retry_loop_disabled post reg key use_APIs max remaining :
  ¬ enquiry_enabled key use_APIs →
  ∀ attempt w,
    retry_loop post reg key use_APIs max remaining attempt w
    = (Ok None,
       set_logs (logs w ++ replicate remaining skipped_record ++ [attempts_over_record]) w).
Proof.
  intros Hoff. induction remaining as [|remaining IH]; intros attempt w; [done|].
  cbn [retry_loop]. unfold mbind, io_bind, bind.
  rewrite enquiry_disabled_step by done. rewrite IH.
  cbn [set_logs logs files locked stdin processor replicate].
  by rewrite <-app_assoc.
Qed.

(** X29. Without a key, or with the APIs switched off, the decorated
    enquiry never calls the service, whatever the service would answer, and
    still goes through all its attempts: it returns [None] after logging the
    skipped enquiry once per attempt, followed by the record that the
    attempts are used up. *)
Theorem disabled_enquiry_still_retries
    (post : nat → request_outcome) (reg : string) (key : option string)
    (use_APIs : bool) (max_attempts : Z) (w : world) :
  key = None ∨ key = Some EmptyString ∨ use_APIs = false →
  vehicle_details_with_retries post reg key use_APIs max_attempts w
  = (Ok None,
     set_logs (logs w ++ replicate (Z.to_nat max_attempts) skipped_record
                      ++ [attempts_over_record]) w).
Proof.
  intros Hoff. apply retry_loop_disabled.
  intros (H1 & H2 & H3). destruct Hoff as [?|[?|?]]; congruence.
Qed.

Lemma disabled_enquiry_still_retries_witness :
  vehicle_details_with_retries (λ _, Responded (Decoded "{}")) "AB12CDE" None true 3
                               (mkWorld ∅ ∅ [] [] (mkVideoProcessor "0f3a" []))
  = (Ok None,
     set_logs ([] ++ replicate (Z.to_nat 3) skipped_record ++ [attempts_over_record])
              (mkWorld ∅ ∅ [] [] (mkVideoProcessor "0f3a" []))).
Proof.
  apply (disabled_enquiry_still_retries (λ _, Responded (Decoded "{}")) "AB12CDE"
           None true 3 (mkWorld ∅ ∅ [] [] (mkVideoProcessor "0f3a" []))).
  by left.
Defined.

(** Attempts that end in a retryable outcome are passed over; the loop then
    does not depend on what the service answered to them beyond the log. *)
Lemma retry_loop_skips post reg key use_APIs max k :
  enquiry_enabled key use_APIs →
  ∀ remaining attempt w,
    (∀ j, (j < k)%nat → retryable (post (attempt + j)%nat) = true) →
    ∃ w1,
      retry_loop post reg key use_APIs max (k + remaining) attempt w
      = retry_loop post reg key use_APIs max remaining (attempt + k) w1
      ∧ files w1 = files w ∧ stdin w1 = stdin w ∧ processor w1 = processor w
      ∧ locked w1 = locked w
      ∧ ∃ written, logs w1 = logs w ++ written ∧ length written = k
                   ∧ Forall (λ r, fst r = WARNING) written.
Proof.
  intros Hon. induction k as [|k IH]; intros remaining attempt w Hretry.
  { exists w. rewrite Nat.add_0_r. split_and!; try done.
    exists []. by rewrite app_nil_r. }
  pose proof (Hretry 0%nat ltac:(lia)) as H0. rewrite Nat.add_0_r in H0.
  assert (∃ msg,
            retry_loop post reg key use_APIs max (S k + remaining) attempt w
            = retry_loop post reg key use_APIs max (k + remaining) (S attempt)
                (set_logs (logs w ++ [(WARNING, ErrorText msg)]) w))
    as [msg Hstep].
  { cbn [retry_loop Nat.add]. unfold mbind, io_bind, bind.
    rewrite enquiry_enabled_step by done.
    destruct (post attempt) as [[d|e]|e|e|e]; try done; by eexists. }
  destruct (IH remaining (S attempt)
              (set_logs (logs w ++ [(WARNING, ErrorText msg)]) w))
    as (w1 & Heq & Hf & Hs & Hp & Hl & written & Hlg & Hlen & Hall).
  { intros j Hj. replace (S attempt + j)%nat with (attempt + S j)%nat by lia.
    apply Hretry. lia. }
  exists w1. rewrite Hstep, Heq.
  replace (S attempt + k)%nat with (attempt + S k)%nat by lia.
  split_and!; try done.
  exists ((WARNING, ErrorText msg) :: written). split_and!.
  - rewrite Hlg. cbn [set_logs logs]. by rewrite <-app_assoc.
  - simpl. lia.
  - by constructor.
Qed.

(** X30. With a key and the APIs switched on, the decorated enquiry never
    raises and retries after a timeout, a failed request or a body that is
    not JSON, each of which it logs as a warning.  The first other outcome
    within [max_attempts] attempts decides: vehicle details are returned;
    an [HTTPError] ends the attempts with [None].  When every attempt ends
    in a retryable outcome the result is [None].  The file system is never
    touched. *)
Theorem first_decisive_reply_decides
    (post : nat → request_outcome) (reg : string) (key : option string)
    (use_APIs : bool) (max_attempts : Z) (w : world) :
  enquiry_enabled key use_APIs →
  let outcome := vehicle_details_with_retries post reg key use_APIs max_attempts w in
  files (snd outcome) = files w
  ∧ (∀ k, (k < Z.to_nat max_attempts)%nat →
          (∀ j, (j < k)%nat → retryable (post j) = true) →
          (∀ details, post k = Responded (Decoded details) →
                      fst outcome = Ok (Some details))
          ∧ (∀ e, post k = HTTPErrorRaised e → fst outcome = Ok None))
  ∧ ((∀ j, (j < Z.to_nat max_attempts)%nat → retryable (post j) = true) →
     fst outcome = Ok None
     ∧ ∃ written, logs (snd outcome) = logs w ++ written ++ [attempts_over_record]
                  ∧ length written = Z.to_nat max_attempts
                  ∧ Forall (λ r, fst r = WARNING) written).
Proof.
  intros Hon outcome. subst outcome. unfold vehicle_details_with_retries.
  set (n := Z.to_nat max_attempts).
  assert (∀ remaining attempt w0,
            files (snd (retry_loop post reg key use_APIs max_attempts remaining
                                   attempt w0)) = files w0) as Hfiles.
  { induction remaining as [|remaining IH]; intros attempt w0; [done|].
    cbn [retry_loop]. unfold mbind, io_bind, bind.
    rewrite enquiry_enabled_step by done.
    destruct (post attempt) as [[d|e]|e|e|e]; try done;
      cbn [logging fst snd]; by rewrite IH. }
  split_and!.
  - apply Hfiles.
  - intros k Hk Hretry.
    destruct (retry_loop_skips post reg key use_APIs max_attempts k Hon (n - k) 0 w)
      as (w1 & Heq & _); [done|].
    replace (k + (n - k))%nat with n in Heq by lia. rewrite Heq. cbn [Nat.add].
    destruct (n - k)%nat as [|remaining] eqn:Hrem; [lia|].
    cbn [retry_loop]. unfold mbind, io_bind, bind.
    rewrite enquiry_enabled_step by done.
    split; [intros details ->|intros e ->]; done.
  - intros Hretry.
    destruct (retry_loop_skips post reg key use_APIs max_attempts n Hon 0 0 w)
      as (w1 & Heq & _ & _ & _ & _ & written & Hlg & Hlen & Hall); [done|].
    rewrite Nat.add_0_r in Heq. rewrite Heq. cbn.
    split; [done|]. exists written.
    change (logs (snd (attempts_over w1))) with (logs w1 ++ [attempts_over_record]).
    by rewrite Hlg, <-app_assoc.
Qed.

Lemma first_decisive_reply_decides_witness :
  let post k := if (k <? 2)%nat then TimeoutRaised "timed out"
                else Responded (Decoded "{make: FORD}") in
  let w := mkWorld ∅ ∅ [] [] (mkVideoProcessor "0f3a" []) in
  fst (vehicle_details_with_retries post "AB12CDE" (Some "key") true 3 w)
  = Ok (Some "{make: FORD}").
Proof.
  intros post w.
  apply (first_decisive_reply_decides post "AB12CDE" (Some "key") true 3 w)
    with (k := 2%nat).
  - done.
  - simpl. lia.
  - by intros [|[|j]] Hj; [..|lia].
  - done.
Defined.

End DvlaFacts.
